(** * merc: upload, extraction and spreadsheet export routes

    A shallow embedding of the four TypeScript sources

      - [src/lib/vectorStore.ts]   (module [VectorStore])
      - [src/routes/upload.ts]     (module [Upload])
      - [src/routes/ask.ts]        (module [Ask])
      - [src/routes/exportExcel.ts] (module [ExportExcel])

    together with the fragment of JavaScript they rely on (module [Js]).

    Conventions of the embedding.

    - A JavaScript string is a [string]; each character stands for one
      UTF-16 code unit below 256, so [length], [slice] and [trim] count and
      classify code units exactly as the engine does on such strings.
    - A JavaScript value of type [any] is a [JsVal].  An object is the list
      of its own enumerable properties in enumeration order.  A property
      the code names literally ([tables], [status], ...) is no member of a
      built-in prototype and is read among the own properties; a property
      read under a computed key ([r?.[c]]) falls back on the prototype
      chain, whose members are given by a [Realm].
    - [String(v)] and template literals throw a [TypeError] on an object
      that owns a [toString] property, as values built by [JSON.parse] may.
    - The remote service, the clock, [JSON.parse] and the ExcelJS library
      are oracles held in records; every call of the remote service and
      every [sleep] is written to a trace.
    - [while (true)] loops take a fuel argument and answer [None] when it
      runs out; a result [Some _] is what the TypeScript code returns. *)

From Stdlib Require Import ZArith Lia Ascii.
From Stdlib Require String.
From stdpp Require Import base option list strings pretty gmap.

Set Warnings "-register-all".

Local Open Scope Z_scope.

(* ===================================================================== *)
(** * The JavaScript fragment                                             *)
(* ===================================================================== *)

Module Js.

(** ** Strings *)

Definition chars (s : string) : list ascii := String.list_ascii_of_string s.
Definition str (l : list ascii) : string := String.string_of_list_ascii l.

(** [s.length] *)
Definition strlen (s : string) : nat := length (chars s).

(** The class [\s] of regular expressions, which is also what [trim]
    strips: TAB, LF, VT, FF, CR, SPACE and NBSP (the members below 256). *)
Definition isWhiteSpace (c : ascii) : bool :=
  match c with
  | "009" | "010" | "011" | "012" | "013" | " " | "160" => true
  | _ => false
  end%char.

Fixpoint trimStart_chars (l : list ascii) : list ascii :=
  match l with
  | c :: l' => if isWhiteSpace c then trimStart_chars l' else l
  | [] => []
  end.

Definition trim_chars (l : list ascii) : list ascii :=
  reverse (trimStart_chars (reverse (trimStart_chars l))).

(** [s.trim()] *)
Definition trim (s : string) : string := str (trim_chars (chars s)).

(** [l.slice(0, e)] on a sequence: a negative [e] counts from the end. *)
Definition slice0_chars (l : list ascii) (e : Z) : list ascii :=
  if decide (e < 0)
  then take (Z.to_nat (Z.of_nat (length l) + e)) l
  else take (Z.to_nat e) l.

(** [s.slice(0, e)] *)
Definition slice0 (s : string) (e : Z) : string := str (slice0_chars (chars s) e).

(** [s.replace(/\s+/g, " ")]: [inRun] tells that the previous code unit
    was white space, whose run has already been replaced. *)
Fixpoint collapse_chars (inRun : bool) (l : list ascii) : list ascii :=
  match l with
  | [] => []
  | c :: l' =>
      if isWhiteSpace c
      then (if inRun then collapse_chars true l'
            else " "%char :: collapse_chars true l')
      else c :: collapse_chars false l'
  end.

(** [s.startsWith(p)] *)
Definition startsWith (s p : string) : bool :=
  bool_decide (take (length (chars p)) (chars s) = chars p).

(** ** Numbers

    A number is kept as what [Number::toString] prints for it.  [NumInt z]
    is the integer [z], of magnitude at most 2^53: the integers the code
    builds itself (indices, lengths) and integer literals in that range,
    all of which are numbers of the language and print as their decimal
    numeral, computed by [pretty].  Any other number, a larger integer
    included, carries its printed form. *)
Inductive JsNumber : Type :=
| NumInt (z : Z)
| NumRepr (printed : string).

Definition number_to_string (n : JsNumber) : string :=
  match n with
  | NumInt z => pretty z
  | NumRepr s => s
  end.

(** ** Values *)

(** A built-in function or prototype object, as far as the code can tell
    it from another: by what [String] prints for it and by its [length]
    property ([None] when that is not a number). *)
Record Native : Type := mkNative {
  printed : string;
  nativeLength : option Z
}.

Inductive JsVal : Type :=
| JUndefined
| JNull
| JBool (b : bool)
| JNum (n : JsNumber)
| JStr (s : string)
| JArr (items : list JsVal)
| JObj (props : list (string * JsVal))
| JNative (n : Native).

(** How an expression or an awaited call completes. *)
Inductive Completion (A : Type) : Type :=
| Return (a : A)
| Throw (e : JsVal).
Global Arguments Return {A} a.
Global Arguments Throw {A} e.

Definition isNullish (v : JsVal) : bool :=
  match v with JUndefined | JNull => true | _ => false end.

(** [a ?? b] *)
Definition nullish (a b : JsVal) : JsVal := if isNullish a then b else a.

(** Thrown values.  [new Error(m)] is an object whose [message] is [m]. *)
Definition Error (message : string) : JsVal := JObj [("message", JStr message)].

(** The [TypeError] of a property read on [null] or [undefined]. *)
Definition TypeError_read (v : JsVal) (k : string) : JsVal :=
  Error ("Cannot read properties of " +:+
         match v with JNull => "null" | _ => "undefined" end +:+
         " (reading '" +:+ k +:+ "')").

(** The [TypeError] of [String(v)] on an object without a callable
    [toString] or [valueOf]. *)
Definition TypeError_primitive : JsVal :=
  Error "Cannot convert object to primitive value".

(** [Array.prototype.join] *)
Fixpoint join (sep : string) (l : list string) : string :=
  match l with
  | [] => ""
  | [s] => s
  | s :: l' => s +:+ sep +:+ join sep l'
  end.

(** [l.map(f)] for a callback that may throw: the elements are visited in
    order and the first exception ends the loop. *)
Section mapC.
Context {A B : Type} (f : A → Completion B).

Fixpoint mapC (l : list A) : Completion (list B) :=
  match l with
  | [] => Return []
  | x :: l' =>
      match f x with
      | Throw e => Throw e
      | Return y =>
          match mapC l' with
          | Throw e => Throw e
          | Return ys => Return (y :: ys)
          end
      end
  end.

End mapC.

(** [String(v)] and [`${v}`].  The own properties of an object come from
    [JSON.parse] and are never callable: an object that owns [toString]
    has no usable conversion ([Object.prototype.valueOf] returns the object
    itself) and the conversion throws; any other object prints through
    [Object.prototype.toString].  An array prints through [join], which
    converts its elements in turn. *)
Fixpoint ToString (v : JsVal) : Completion string :=
  match v with
  | JUndefined => Return "undefined"
  | JNull => Return "null"
  | JBool true => Return "true"
  | JBool false => Return "false"
  | JNum n => Return (number_to_string n)
  | JStr s => Return s
  | JArr items =>
      match mapC (fun x => if isNullish x then Return "" else ToString x) items with
      | Return texts => Return (join "," texts)
      | Throw e => Throw e
      end
  | JObj props =>
      if bool_decide ("toString" ∈ props.*1) then Throw TypeError_primitive
      else Return "[object Object]"
  | JNative n => Return (printed n)
  end.

(** [Array.isArray(v) ? v : []], the elements of [v] when it is an array *)
Definition arrayItems (v : JsVal) : option (list JsVal) :=
  match v with JArr items => Some items | _ => None end.

(** A property key that is an array index: the canonical decimal numeral
    of a natural number. *)
Fixpoint digits_value (acc : N) (l : list ascii) : option N :=
  match l with
  | [] => Some acc
  | c :: l' =>
      match Ascii.is_nat c with
      | Some d => digits_value (acc * 10 + N.of_nat d)%N l'
      | None => None
      end
  end.

Definition arrayIndex (k : string) : option nat :=
  match chars k with
  | [] => None
  | l => match digits_value 0%N l with
         | Some n => if decide (pretty n = k) then Some (N.to_nat n) else None
         | None => None
         end
  end.

Fixpoint assoc (k : string) (props : list (string * JsVal)) : JsVal :=
  match props with
  | [] => JUndefined
  | (k', v) :: props' => if decide (k' = k) then v else assoc k props'
  end.

(** The own property [k] of a [v] that is neither [null] nor [undefined]:
    properties of objects, elements and [length] of arrays and strings.
    This is [v.k] for the keys the code names literally. *)
Definition getOwn (v : JsVal) (k : string) : JsVal :=
  match v with
  | JObj props => assoc k props
  | JArr items =>
      if decide (k = "length") then JNum (NumInt (Z.of_nat (length items)))
      else match arrayIndex k with
           | Some i => default JUndefined (items !! i)
           | None => JUndefined
           end
  | JStr s =>
      if decide (k = "length") then JNum (NumInt (Z.of_nat (strlen s)))
      else match arrayIndex k with
           | Some i => match chars s !! i with
                       | Some c => JStr (str [c])
                       | None => JUndefined
                       end
           | None => JUndefined
           end
  | _ => JUndefined
  end.

(** [v?.k] *)
Definition getOpt (v : JsVal) (k : string) : JsVal :=
  if isNullish v then JUndefined else getOwn v k.

(** [v.k]: throws on [null] and [undefined]. *)
Definition get (v : JsVal) (k : string) : JsVal + JsVal :=
  if isNullish v then inl (TypeError_read v k) else inr (getOwn v k).

(** ** Computed keys and the prototype chain *)

(** Whether [v] owns the property [k]. *)
Definition hasOwn (v : JsVal) (k : string) : bool :=
  match v with
  | JObj props => bool_decide (k ∈ props.*1)
  | JArr items =>
      bool_decide (k = "length") ||
      match arrayIndex k with
      | Some i => bool_decide (i < length items)%nat
      | None => false
      end
  | JStr s =>
      bool_decide (k = "length") ||
      match arrayIndex k with
      | Some i => bool_decide (i < strlen s)%nat
      | None => false
      end
  | _ => false
  end.

(** The kinds of values, each with a prototype chain of its own. *)
Inductive Kind : Type :=
| KObject | KArray | KString | KNumber | KBoolean | KNative.

Definition kindOf (v : JsVal) : Kind :=
  match v with
  | JArr _ => KArray
  | JStr _ => KString
  | JNum _ => KNumber
  | JBool _ => KBoolean
  | JNative _ => KNative
  | _ => KObject
  end.

(** The built-in prototypes: the member a value of a kind inherits under
    a name, if there is one ([constructor], [toString], [__proto__], ...
    for every kind; [map], [push], ... for arrays; and so on). *)
Definition Realm : Type := Kind → string → option Native.

(** [v[k]] for a [v] that is neither [null] nor [undefined] and any key
    [k]: the own property, or else the inherited member. *)
Definition getComputed (realm : Realm) (v : JsVal) (k : string) : JsVal :=
  if hasOwn v k then getOwn v k
  else match realm (kindOf v) k with
       | Some n => JNative n
       | None => JUndefined
       end.

(** [v?.[k]] *)
Definition getComputedOpt (realm : Realm) (v : JsVal) (k : string) : JsVal :=
  if isNullish v then JUndefined else getComputed realm v k.

(** [out[k] = s] on an object literal [out] with string values:
    assigning a string to [__proto__] runs the inherited setter, which
    ignores it, and creates no property. *)
Definition assign (out : gmap string string) (k s : string) : gmap string string :=
  if decide (k = "__proto__") then out else <[k := s]> out.

(** [Object.keys(v)] *)
Definition keys (v : JsVal) : list string :=
  match v with
  | JObj props => props.*1
  | JArr items => (λ i : nat, pretty i) <$> seq 0 (length items)
  | JStr s => (λ i : nat, pretty i) <$> seq 0 (strlen s)
  | _ => []
  end.

(** [v === "s"] for a string literal or a string [s] *)
Definition isString (v : JsVal) (s : string) : bool :=
  match v with JStr s' => bool_decide (s' = s) | _ => false end.

End Js.


(* ===================================================================== *)
(** * Effects: remote calls, sleeping, exceptions                         *)
(* ===================================================================== *)

Module Eff.
Import Js.

(** What a handler does to the outside world, in order. *)
Inductive Event : Type :=
| Call (api : string) (args : list string)
| Sleep (ms : Z).

(** A computation extends the trace and completes, or is still running
    when the fuel of one of its loops is used up ([None]). *)
Definition M (A : Type) : Type :=
  list Event → option (Completion A * list Event).

Definition ret {A} (a : A) : M A := λ tr, Some (Return a, tr).
Definition throw {A} (e : JsVal) : M A := λ tr, Some (Throw e, tr).
Definition running {A} : M A := λ _, None.

Definition bind {A B} (m : M A) (k : A → M B) : M B := λ tr,
  match m tr with
  | Some (Return a, tr') => k a tr'
  | Some (Throw e, tr') => Some (Throw e, tr')
  | None => None
  end.

(** An expression that may throw, without effect on the world. *)
Definition eval {A} (c : Completion A) : M A := λ tr, Some (c, tr).

(** [await] of a remote call that completes with [outcome]. *)
Definition await {A} (ev : Event) (outcome : Completion A) : M A :=
  λ tr, Some (outcome, tr ++ [ev]).

(** [await sleep(ms)] *)
Definition sleep (ms : Z) : M unit := λ tr, Some (Return (), tr ++ [Sleep ms]).

(** [try { m } catch (err) { h err }] *)
Definition tryCatch {A} (m : M A) (h : JsVal → M A) : M A := λ tr,
  match m tr with
  | Some (Throw e, tr') => h e tr'
  | r => r
  end.

Module Notations.
Notation "'let*' x ':=' m 'in' k" := (bind m (λ x, k))
  (at level 10, x pattern, m at level 100, k at level 200,
   format "'[v' 'let*'  x  ':='  m  'in' '/' k ']'").
End Notations.

(** [v.k] as an expression *)
Definition getC (v : JsVal) (k : string) : Completion JsVal :=
  match get v k with inl e => Throw e | inr x => Return x end.

End Eff.

(* ===================================================================== *)
(** * src/lib/vectorStore.ts                                              *)
(* ===================================================================== *)

Module VectorStore.
Import Js Eff.

(** The remote service and the scheduler, as seen by one call of
    [waitForVectorStoreReady]: the outcome and the duration of the [k]-th
    [openai.vectorStores.retrieve], and the time the [k]-th
    [sleep(1500)] really takes. *)
Record World : Type := mkWorld {
  retrieve : string → nat → Completion JsVal;
  retrieveTime : nat → Z;
  sleepTime : nat → Z
}.

Record State : Type := mkState {
  now : Z;                 (* Date.now() *)
  polls : nat;             (* calls of retrieve so far *)
  trace : list Event
}.

(** What [throw new Error(`Timed out ... (last status: ${vs.status})`)]
    raises: the error, or the exception of the template literal. *)
Definition timeoutError (vectorStoreId : string) (status : JsVal) : JsVal :=
  match ToString status with
  | Return text =>
      Error ("Timed out waiting for vector store " +:+ vectorStoreId +:+
             " to be ready (last status: " +:+ text +:+ ")")
  | Throw e => e
  end.

(** The [while (true)] loop; [start] was read before it. *)
Fixpoint waitLoop (fuel : nat) (w : World) (vectorStoreId : string)
    (timeoutMs start : Z) (st : State) : option (Completion JsVal * State) :=
  match fuel with
  | O => None
  | S fuel' =>
      let k := polls st in
      let st := {| now := now st + retrieveTime w k;
                   polls := S k;
                   trace := trace st ++ [Call "vectorStores.retrieve" [vectorStoreId]] |} in
      match retrieve w vectorStoreId k with
      | Throw e => Some (Throw e, st)
      | Return vs =>
          match getC vs "status" with
          | Throw e => Some (Throw e, st)
          | Return status =>
              if isString status "completed" then Some (Return vs, st)
              else if decide (now st - start > timeoutMs) then
                Some (Throw (timeoutError vectorStoreId status), st)
              else
                let st := {| now := now st + sleepTime w k;
                             polls := polls st;
                             trace := trace st ++ [Sleep 1500] |} in
                waitLoop fuel' w vectorStoreId timeoutMs start st
          end
      end
  end.

Definition defaultTimeoutMs : Z := 120000.

Definition waitForVectorStoreReady (fuel : nat) (w : World)
    (vectorStoreId : string) (timeoutMs : Z) (st : State)
    : option (Completion JsVal * State) :=
  let start := now st in
  waitLoop fuel w vectorStoreId timeoutMs start st.

End VectorStore.

(* ===================================================================== *)
(** * src/routes/upload.ts                                                *)
(* ===================================================================== *)

Module Upload.
Import Js Eff Eff.Notations.

(** [req.file] as multer leaves it *)
Record MulterFile : Type := mkFile {
  originalname : string;
  mimetype : string;
  buffer : list Byte.byte
}.

(** The result of [toFile(buffer, name, { type })] *)
Record Uploadable : Type := mkUploadable {
  up_buffer : list Byte.byte;
  up_name : string;
  up_type : string
}.

(** The remote service and [path.basename].  [fileBatches_retrieve]
    receives the number of earlier retrievals, so that the status may
    change from one poll to the next. *)
Record Remote : Type := mkRemote {
  basename : string → string;
  files_create : Uploadable → Completion JsVal;
  vectorStores_create : string → Completion JsVal;
  fileBatches_create : string → list string → Completion JsVal;
  fileBatches_retrieve : string → string → nat → Completion JsVal;
  files_list : string → Completion (list JsVal)
}.

Record Response : Type := mkResponse { status : Z; body : JsVal }.

(** What [throw new Error(`${name} missing/invalid: ${String(value)}`)]
    raises: the error, or the exception of [String(value)]. *)
Definition invalidError (name : string) (value : JsVal) : JsVal :=
  match ToString value with
  | Return text => Error (name +:+ " missing/invalid: " +:+ text)
  | Throw e => e
  end.

Definition assertString (name : string) (value : JsVal) : Completion string :=
  match value with
  | JStr s =>
      if decide (trim s = "") then Throw (invalidError name value) else Return s
  | _ => Throw (invalidError name value)
  end.

Definition retrieveBatch (r : Remote) (k : nat) (batchId vectorStoreId : string)
    : M JsVal :=
  await (Call "vectorStores.fileBatches.retrieve" [batchId; vectorStoreId])
        (fileBatches_retrieve r batchId vectorStoreId k).

(** Step 5, the [while (true)] loop.  [None] is [break]; [Some resp] is
    [return resp] out of the handler.  [k] counts the retrievals made. *)
Fixpoint pollBatch (fuel : nat) (r : Remote) (k : nat)
    (fileId vectorStoreId batchId : string) : M (option Response) :=
  match fuel with
  | O => running
  | S fuel' =>
      let* b := retrieveBatch r k batchId vectorStoreId in
      let* status := eval (getC b "status") in
      if isString status "completed" then ret None
      else if isString status "failed" then
        ret (Some (mkResponse 500 (JObj [
          ("ok", JBool false);
          ("error", JStr "File batch failed during vector store processing");
          ("fileId", JStr fileId);
          ("vectorStoreId", JStr vectorStoreId);
          ("batchId", JStr batchId);
          ("batchStatus", b) ])))
      else
        let* _ := sleep 1500 in
        pollBatch fuel' r (S k) fileId vectorStoreId batchId
  end.

(** [data.find((x) => x.id === fileId)] *)
Fixpoint findEntry (fileId : string) (data : list JsVal) : Completion (option JsVal) :=
  match data with
  | [] => Return None
  | x :: data' =>
      match getC x "id" with
      | Throw e => Throw e
      | Return id => if isString id fileId then Return (Some x) else findEntry fileId data'
      end
  end.

(** [data.map((x) => ({ id: x.id, status: x.status }))] *)
Fixpoint idStatus (data : list JsVal) : Completion (list JsVal) :=
  match data with
  | [] => Return []
  | x :: data' =>
      match getC x "id", getC x "status" with
      | Return id, Return st =>
          match idStatus data' with
          | Return l => Return (JObj [("id", id); ("status", st)] :: l)
          | Throw e => Throw e
          end
      | Throw e, _ => Throw e
      | _, Throw e => Throw e
      end
  end.

(** Step 6, once the loop was left by [break]. *)
Definition checkEntry (r : Remote) (fileId vectorStoreId batchId : string)
    : M Response :=
  let* data := await (Call "vectorStores.files.list" [vectorStoreId])
                     (files_list r vectorStoreId) in
  let* entry := eval (findEntry fileId data) in
  match entry with
  | None =>
      let* files := eval (idStatus data) in
      ret (mkResponse 500 (JObj [
        ("ok", JBool false);
        ("error", JStr "File not found in vector store after batch completed");
        ("fileId", JStr fileId);
        ("vectorStoreId", JStr vectorStoreId);
        ("batchId", JStr batchId);
        ("files", JArr files) ]))
  | Some entry =>
      if isString (getOwn entry "status") "failed" then
        ret (mkResponse 500 (JObj [
          ("ok", JBool false);
          ("error", JStr "Vector store indexing failed for this file");
          ("fileId", JStr fileId);
          ("vectorStoreId", JStr vectorStoreId);
          ("batchId", JStr batchId);
          ("vectorStoreFile", JObj [
             ("id", getOwn entry "id");
             ("status", getOwn entry "status");
             ("last_error", getOwn entry "last_error") ]) ]))
      else
        let* indexedFiles := eval (idStatus data) in
        ret (mkResponse 200 (JObj [
          ("ok", JBool true);
          ("fileId", JStr fileId);
          ("vectorStoreId", JStr vectorStoreId);
          ("batchId", JStr batchId);
          ("indexedFiles", JArr indexedFiles);
          ("note", JStr "File uploaded and indexed successfully") ]))
  end.

(** Steps 1 to 4 of the [try] block: the three identifiers. *)
Definition submit (r : Remote) (f : MulterFile) : M (string * string * string) :=
  let originalName :=
    if decide (originalname f = "") then "upload.pdf" else originalname f in
  let safeName := basename r originalName in
  let mime :=
    if decide (mimetype f = "") then "application/octet-stream" else mimetype f in
  let uploadable := mkUploadable (buffer f) safeName mime in
  let* uploadedFile := await (Call "files.create" [safeName; mime; "user_data"])
                             (files_create r uploadable) in
  let* id := eval (getC uploadedFile "id") in
  let* fileId := eval (assertString "uploadedFile.id" id) in
  let* vectorStore := await (Call "vectorStores.create" ["upload:" +:+ safeName])
                            (vectorStores_create r ("upload:" +:+ safeName)) in
  let* id := eval (getC vectorStore "id") in
  let* vectorStoreId := eval (assertString "vectorStore.id" id) in
  let* batch := await (Call "vectorStores.fileBatches.create" [vectorStoreId; fileId])
                      (fileBatches_create r vectorStoreId [fileId]) in
  let* id := eval (getC batch "id") in
  let* batchId := eval (assertString "batch.id" id) in
  ret (fileId, vectorStoreId, batchId).

(** The [try] block of the handler. *)
Definition tryBlock (fuel : nat) (r : Remote) (f : MulterFile) : M Response :=
  let* (fileId, vectorStoreId, batchId) := submit r f in
  let* exit := pollBatch fuel r 0 fileId vectorStoreId batchId in
  match exit with
  | Some resp => ret resp
  | None => checkEntry r fileId vectorStoreId batchId
  end.

(** The [catch (err)] block. *)
Definition onError (err : JsVal) : Response :=
  mkResponse 500 (JObj [
    ("ok", JBool false);
    ("error", nullish (getOpt err "message") (JStr "Upload failed")) ]).

(** [uploadRouter.post("/", upload.single("file"), ...)] *)
Definition post (fuel : nat) (r : Remote) (file : option MulterFile) : M Response :=
  match file with
  | None =>
      ret (mkResponse 400 (JObj [
        ("ok", JBool false);
        ("error", JStr "No file uploaded (field name must be 'file').") ]))
  | Some f => tryCatch (tryBlock fuel r f) (λ err, ret (onError err))
  end.

End Upload.

(* ===================================================================== *)
(** * src/routes/ask.ts                                                   *)
(* ===================================================================== *)

Module Ask.
Import Js Eff Eff.Notations.

(** What [openai.responses.create] resolves to, as far as it is read. *)
Record ModelResponse : Type := mkModelResponse { output_text : option string }.

(** The completion service, [JSON.parse] ([None] when it throws a
    [SyntaxError]), [new Date().toISOString()] and the built-in
    prototypes.  The request sent to the service is a constant but for the
    file id: model [gpt-4o], the extraction prompt and
    [max_output_tokens]. *)
Record Env : Type := mkEnv {
  responses_create : string → Completion ModelResponse;
  JSON_parse : string → option JsVal;
  nowISO : string;
  realm : Realm
}.

Record DocumentText : Type := mkDocumentText { order : JsNumber; content : string }.

Record Table : Type := mkTable {
  tableName : string;
  columns : list string;
  rows : list (gmap string string)
}.

Record IdAnalysis : Type := mkIdAnalysis {
  ids_found_in_multiple_tables : list JsVal;
  ids_found_in_single_location : list JsVal
}.

Record Meta : Type := mkMeta { sourceFileId : string; generatedAtISO : string }.

Record Data : Type := mkData {
  documentText : list DocumentText;
  tables : list Table;
  idAnalysis : IdAnalysis;
  meta : Meta
}.

Inductive Body : Type :=
| ErrorBody (ok : bool) (error : JsVal)                    (* { ok, error } *)
| PreviewBody (ok : bool) (error : string) (preview : string)
| DataBody (ok : bool) (fileId : string) (data : Data).

Record Response : Type := mkResponse { status : Z; body : Body }.

(** The callback of [parsed.documentText.map((x, i) => ...)] *)
Definition normalizeEntry (i : nat) (x : JsVal) : Completion DocumentText :=
  let order :=
    match getOpt x "order" with
    | JNum n => n
    | _ => NumInt (Z.of_nat i + 1)
    end in
  match ToString (nullish (getOpt x "content") (JStr "")) with
  | Throw e => Throw e
  | Return content => Return {| order := order; content := content |}
  end.

(** [parsed.documentText.map(...)], from index [i] on *)
Fixpoint normalizeDocumentText (i : nat) (items : list JsVal)
    : Completion (list DocumentText) :=
  match items with
  | [] => Return []
  | x :: items' =>
      match normalizeEntry i x with
      | Throw e => Throw e
      | Return d =>
          match normalizeDocumentText (S i) items' with
          | Throw e => Throw e
          | Return ds => Return (d :: ds)
          end
      end
  end.

(** The callback of [t.rows.map]: [out] starts empty and
    [out[c] = String(r?.[c] ?? "")] runs for each declared column. *)
Fixpoint normalizeRow_from (realm : Realm) (out : gmap string string)
    (columns : list string) (r : JsVal) : Completion (gmap string string) :=
  match columns with
  | [] => Return out
  | c :: columns' =>
      match ToString (nullish (getComputedOpt realm r c) (JStr "")) with
      | Throw e => Throw e
      | Return text => normalizeRow_from realm (assign out c text) columns' r
      end
  end.

Definition normalizeRow (realm : Realm) (columns : list string) (r : JsVal)
    : Completion (gmap string string) :=
  normalizeRow_from realm ∅ columns r.

(** The callback of [parsed.tables.map] *)
Definition normalizeTable (realm : Realm) (t : JsVal) : Completion Table :=
  match (match arrayItems (getOpt t "columns") with
         | Some cs => mapC ToString cs
         | None => Return []
         end) with
  | Throw e => Throw e
  | Return columns =>
      match (match arrayItems (getOpt t "rows") with
             | Some rs => mapC (normalizeRow realm columns) rs
             | None => Return []
             end) with
      | Throw e => Throw e
      | Return rows =>
          match ToString (nullish (getOpt t "tableName") (JStr "Unnamed Table")) with
          | Throw e => Throw e
          | Return tableName =>
              Return {| tableName := tableName; columns := columns; rows := rows |}
          end
      end
  end.

(** [Array.isArray(parsed.documentText) ? parsed.documentText.map(...) : []]
    on the value [dt] of [parsed.documentText] *)
Definition documentTextOf (dt : JsVal) : Completion (list DocumentText) :=
  match arrayItems dt with
  | Some items => normalizeDocumentText 0 items
  | None => Return []
  end.

(** [Array.isArray(parsed.tables) ? parsed.tables.map(...) : []] on the
    value [ts] of [parsed.tables] *)
Definition tablesOf (realm : Realm) (ts : JsVal) : Completion (list Table) :=
  match arrayItems ts with
  | Some items => mapC (normalizeTable realm) items
  | None => Return []
  end.

Definition arrayOrEmpty (v : JsVal) : list JsVal := default [] (arrayItems v).

(** From [const documentText = ...] to the success response. *)
Definition normalize (e : Env) (fileId : string) (parsed : JsVal) : M Response :=
  let* dt := eval (getC parsed "documentText") in
  let* documentText := eval (documentTextOf dt) in
  let* ts := eval (getC parsed "tables") in
  let* tables := eval (tablesOf (realm e) ts) in
  let ia := getOpt parsed "idAnalysis" in
  let idAnalysis :=
    {| ids_found_in_multiple_tables :=
         arrayOrEmpty (getOpt ia "ids_found_in_multiple_tables");
       ids_found_in_single_location :=
         arrayOrEmpty (getOpt ia "ids_found_in_single_location") |} in
  ret (mkResponse 200 (DataBody true fileId
         {| documentText := documentText;
            tables := tables;
            idAnalysis := idAnalysis;
            meta := {| sourceFileId := fileId; generatedAtISO := nowISO e |} |})).

(** [askRouter.get("/:fileId", ...)] *)
Definition get (e : Env) (fileId : string) : M Response :=
  if negb (startsWith fileId "file-") then
    ret (mkResponse 400 (ErrorBody false
           (JStr "Invalid fileId. Expected a path param like /ask/file-...")))
  else
    tryCatch
      (let* response := await (Call "responses.create" [fileId])
                              (responses_create e fileId) in
       let rawText := default "" (output_text response) in
       match JSON_parse e rawText with
       | None =>
           ret (mkResponse 500 (PreviewBody false
                  "Model did not return valid JSON." (slice0 rawText 1200)))
       | Some parsed => normalize e fileId parsed
       end)
      (λ err, ret (mkResponse 500 (ErrorBody false
                     (nullish (getOpt err "message") (JStr "Ask failed"))))).

End Ask.

(* ===================================================================== *)
(** * src/routes/exportExcel.ts                                           *)
(* ===================================================================== *)

Module ExportExcel.
Import Js.

(** The character class [[:\\/?*\[\]]] *)
Definition isDisallowed (c : ascii) : bool :=
  match c with
  | ":" | "\" | "/" | "?" | "*" | "[" | "]" => true
  | _ => false
  end%char.

Definition replaceDisallowed (c : ascii) : ascii :=
  if isDisallowed c then " "%char else c.

Definition cleaned_chars (l : list ascii) : list ascii :=
  slice0_chars (trim_chars (collapse_chars false (replaceDisallowed <$> l))) 31.

Definition safeSheetName (name fallback : string) : string :=
  let cleaned :=
    str (cleaned_chars (chars (if decide (name = "") then fallback else name))) in
  if decide (strlen cleaned = 0%nat) then fallback else cleaned.

(** The candidate of the loop of [uniqueSheetName] for counter [i]. *)
Definition suffixed (base : string) (i : N) : string :=
  let suffix := " " +:+ pretty i in
  trim (slice0 base (31 - Z.of_nat (strlen suffix)) +:+ suffix).

(** The [while (used.has(name))] loop; [i] is the next counter. *)
Fixpoint uniqueSheetName_loop (fuel : nat) (base : string) (used : gset string)
    (name : string) (i : N) : option string :=
  if decide (name ∈ used) then
    match fuel with
    | O => None
    | S fuel' => uniqueSheetName_loop fuel' base used (suffixed base i) (i + 1)%N
    end
  else Some name.

(** Returns the name and the updated set [used]. *)
Definition uniqueSheetName (fuel : nat) (base : string) (used : gset string)
    : option (string * gset string) :=
  name ← uniqueSheetName_loop fuel base used base 2%N;
  Some (name, {[name]} ∪ used).

(** The value [normalizeRows] stores under column [c] of row [r]:
    [v === null || v === undefined ? "" : String(v)] with [v = r?.[c]]. *)
Definition cellText (realm : Realm) (r : JsVal) (c : string) : Completion string :=
  let v := getComputedOpt realm r c in
  if isNullish v then Return "" else ToString v.

(** The body of the [map] callback: [out] starts empty and [out[c] = ...]
    runs for each column in turn. *)
Fixpoint normalizeRow_from (realm : Realm) (out : gmap string string)
    (columns : list string) (r : JsVal) : Completion (gmap string string) :=
  match columns with
  | [] => Return out
  | c :: columns' =>
      match cellText realm r c with
      | Throw e => Throw e
      | Return text => normalizeRow_from realm (assign out c text) columns' r
      end
  end.

Definition normalizeRow (realm : Realm) (columns : list string) (r : JsVal)
    : Completion (gmap string string) :=
  normalizeRow_from realm ∅ columns r.

Definition normalizeRows (realm : Realm) (columns : list string) (rows : list JsVal)
    : Completion (list (gmap string string)) :=
  mapC (normalizeRow realm columns) rows.

(** ** The workbook

    A worksheet is kept as what the route hands to ExcelJS: its name, its
    column definitions (which carry the header row), the objects passed to
    [addRow] in order, and the styling that was set.  A width is [None]
    when it is [NaN]. *)
Record Column : Type := mkColumn {
  header : string;
  key : string;
  width : option Z
}.

Record Styling : Type := mkStyling {
  frozenRows : Z;                  (* views = [{state: "frozen", ySplit}] *)
  headerBold : bool;
  autoFilterTo : option Z;         (* last column of the header filter *)
  wrapText : bool
}.

Record Worksheet : Type := mkWorksheet {
  ws_name : string;
  ws_columns : list Column;
  ws_rows : list (gmap string string);
  ws_textFormat : bool;            (* numFmt "@" on the data cells *)
  ws_styling : Styling
}.

Abbreviation Workbook := (list Worksheet).

(** ExcelJS and the built-in prototypes, as far as they decide what the
    route answers: the exception, if any, that [wb.addWorksheet(name)]
    raises in a workbook whose sheets have the given names; the exception,
    if any, raised while a sheet is given its columns, rows and styling;
    and the exception, if any, of [wb.xlsx.writeBuffer()]. *)
Record Env : Type := mkEnv {
  realm : Realm;
  addWorksheet : list string → string → option JsVal;
  fillSheet : Worksheet → option JsVal;
  writeBuffer : Workbook → option JsVal
}.

(** [(row[c] ?? "").length]: the length of the own cell, or of what the
    row inherits under [c]; [None] when it is not a number. *)
Definition cellLength (realm : Realm) (row : gmap string string) (c : string)
    : option Z :=
  match row !! c with
  | Some s => Some (Z.of_nat (strlen s))
  | None =>
      match realm KObject c with
      | Some n => nativeLength n
      | None => Some 0
      end
  end.

(** [Math.min(maxWidth, Math.max(w, len + 2))], which is [NaN] as soon as
    [w] or [len] is. *)
Definition widen (maxWidth : Z) (w len : option Z) : option Z :=
  match w, len with
  | Some w, Some len => Some (Z.min maxWidth (Z.max w (len + 2)))
  | _, _ => None
  end.

Definition setColumnWidths (realm : Realm) (columns : list string)
    (rows : list (gmap string string)) (maxWidth : Z) : list Column :=
  let sampleN := Nat.min (length rows) 50 in
  let widths := (λ c, Some (Z.max 10 (Z.of_nat (strlen c) + 2))) <$> columns in
  let widths :=
    foldl (λ widths row,
             zip_with (λ c w, widen maxWidth w (cellLength realm row c))
                      columns widths)
          widths (take sampleN rows) in
  zip_with (λ c w, mkColumn c c w) columns widths.

Definition applySheetStyling (columnsCount rowsCount : Z) : Styling :=
  {| frozenRows := 1;
     headerBold := true;
     autoFilterTo :=
       if decide (0 < columnsCount ∧ 1 ≤ rowsCount) then Some columnsCount else None;
     wrapText := true |}.

(** [Array.from(new Set(l))]: first occurrences, in order. *)
Fixpoint distinct (seen : gset string) (l : list string) : list string :=
  match l with
  | [] => []
  | x :: l' =>
      if decide (x ∈ seen) then distinct seen l'
      else x :: distinct ({[x]} ∪ seen) l'
  end.

(** [`Table ${idx + 1}`] *)
Definition positionalName (idx : nat) : string :=
  "Table " +:+ pretty (N.of_nat idx + 1)%N.

Definition placeholderText : string := "Table had no columns/rows.".

(** The body of [tables.forEach((t, idx) => ...)], in four parts: the base
    name of the sheet, its columns, the sheet once
    [wb.addWorksheet(sheetName)] has made it, and the callback itself. *)
Definition baseNameOf (t : JsVal) (idx : nat) : string :=
  let tableName :=
    match getOpt t "tableName" with
    | JStr s => s
    | _ => positionalName idx
    end in
  safeSheetName tableName (positionalName idx).

Definition finalColumnsOf (t : JsVal) : Completion (list string) :=
  match (match arrayItems (getOpt t "columns") with
         | Some cs => mapC ToString cs
         | None => Return []
         end) with
  | Throw e => Throw e
  | Return columns =>
      let rows := default [] (arrayItems (getOpt t "rows")) in
      Return (if decide (0 < length columns)%nat then columns
              else distinct ∅ (rows ≫= (λ r, keys (nullish r (JObj [])))))
  end.

Definition placeholderSheet (sheetName : string) : Worksheet :=
  {| ws_name := sheetName;
     ws_columns := [mkColumn "message" "message" (Some 50)];
     ws_rows := [ {[ "message" := placeholderText ]} ];
     ws_textFormat := false;
     ws_styling := applySheetStyling 1 1 |}.

Definition filledSheet (realm : Realm) (sheetName : string)
    (finalColumns : list string) (normalized : list (gmap string string))
    : Worksheet :=
  {| ws_name := sheetName;
     ws_columns := setColumnWidths realm finalColumns normalized 70;
     ws_rows := normalized;
     ws_textFormat := true;
     ws_styling :=
       applySheetStyling (Z.of_nat (length finalColumns))
                         (Z.of_nat (length normalized) + 1) |}.

(** From [if (!finalColumns.length)] to the end of the callback. *)
Definition worksheetOf (env : Env) (t : JsVal) (finalColumns : list string)
    (sheetName : string) : Completion Worksheet :=
  let rows := default [] (arrayItems (getOpt t "rows")) in
  if decide (length finalColumns = 0%nat) then
    match fillSheet env (placeholderSheet sheetName) with
    | Some e => Throw e
    | None => Return (placeholderSheet sheetName)
    end
  else
    match normalizeRows (realm env) finalColumns rows with
    | Throw e => Throw e
    | Return normalized =>
        match fillSheet env (filledSheet (realm env) sheetName finalColumns normalized) with
        | Some e => Throw e
        | None => Return (filledSheet (realm env) sheetName finalColumns normalized)
        end
    end.

Definition addTable (env : Env) (fuel : nat) (t : JsVal) (idx : nat)
    (wb : Workbook) (used : gset string)
    : option (Completion (Workbook * gset string)) :=
  '(sheetName, used) ← uniqueSheetName fuel (baseNameOf t idx) used;
  Some (match finalColumnsOf t with
        | Throw e => Throw e
        | Return finalColumns =>
            match addWorksheet env (ws_name <$> wb) sheetName with
            | Some e => Throw e
            | None =>
                match worksheetOf env t finalColumns sheetName with
                | Throw e => Throw e
                | Return ws => Return (wb ++ [ws], used)
                end
            end
        end).

Fixpoint forEachTable (env : Env) (fuel : nat) (tables : list JsVal) (idx : nat)
    (wb : Workbook) (used : gset string)
    : option (Completion (Workbook * gset string)) :=
  match tables with
  | [] => Some (Return (wb, used))
  | t :: tables' =>
      match addTable env fuel t idx wb used with
      | None => None
      | Some (Throw e) => Some (Throw e)
      | Some (Return (wb, used)) => forEachTable env fuel tables' (S idx) wb used
      end
  end.

(** ** The route *)
Definition dquote : string := String "034"%char "".

Inductive Body : Type :=
| ErrorBody (ok : bool) (error : JsVal)          (* res.json({ ok, error }) *)
| FileBody (contentType contentDisposition : string) (wb : Workbook).

Record Response : Type := mkResponse { status : Z; body : Body }.

Definition noTablesMessage : string :=
  "No tables found. Expected JSON with data.tables[] (paste the full /ask response or the inner data object).".

Definition xlsxType : string :=
  "application/vnd.openxmlformats-officedocument.spreadsheetml.sheet".

Definition attachment : string :=
  "attachment; filename=" +:+ dquote +:+ "extracted.xlsx" +:+ dquote.

(** [Array.isArray(data?.tables) ? data.tables : []] with
    [data = body?.data ?? body] *)
Definition tablesOf (body : JsVal) : list JsVal :=
  let data := nullish (getOpt body "data") body in
  default [] (arrayItems (getOpt data "tables")).

(** The [catch (err)] block. *)
Definition onError (err : JsVal) : Response :=
  mkResponse 500 (ErrorBody false
    (nullish (getOpt err "message") (JStr "Excel export failed"))).

(** [exportExcelRouter.post("/", ...)] on the request body [body]. *)
Definition post (env : Env) (fuel : nat) (body : JsVal) : option Response :=
  let tables := tablesOf body in
  if decide (length tables = 0%nat) then
    Some (mkResponse 400 (ErrorBody false (JStr noTablesMessage)))
  else
    match forEachTable env fuel tables 0 [] ∅ with
    | None => None
    | Some (Throw e) => Some (onError e)
    | Some (Return (wb, _)) =>
        match writeBuffer env wb with
        | Some e => Some (onError e)
        | None => Some (mkResponse 200 (FileBody xlsxType attachment wb))
        end
    end.

End ExportExcel.
(* ===================================================================== *)
(** * Vocabulary of the statements and sample inputs                      *)
(* ===================================================================== *)

Import Js Eff.

(** The status an awaited retrieval shows, if it resolves to an object. *)
Definition shownStatus (c : Completion JsVal) : option JsVal :=
  match c with
  | Return b => match getC b "status" with Return s => Some s | Throw _ => None end
  | Throw _ => None
  end.

(** A retrieval of the indexing job that shows neither terminal status. *)
Definition nonTerminal (c : Completion JsVal) : Prop :=
  ∃ s, shownStatus c = Some s ∧
       isString s "completed" = false ∧ isString s "failed" = false.

(** The indexing job is first seen [completed] at retrieval [n]. *)
Definition completesAt (r : Upload.Remote) (batchId vectorStoreId : string)
    (n : nat) : Prop :=
  (∀ j, (j < n)%nat →
        nonTerminal (Upload.fileBatches_retrieve r batchId vectorStoreId j)) ∧
  ∃ s, shownStatus (Upload.fileBatches_retrieve r batchId vectorStoreId n) = Some s ∧
       isString s "completed" = true.

(** What the poll loop writes to the trace when it leaves at retrieval [n]. *)
Fixpoint pollTrace (batchId vectorStoreId : string) (n : nat) : list Event :=
  match n with
  | O => [Call "vectorStores.fileBatches.retrieve" [batchId; vectorStoreId]]
  | S n' =>
      Call "vectorStores.fileBatches.retrieve" [batchId; vectorStoreId]
        :: Sleep 1500 :: pollTrace batchId vectorStoreId n'
  end.

(** No object inside [v] owns a [toString] property, so that every
    [String] coercion of [v] or of a part of it succeeds. *)
Fixpoint tame (v : JsVal) : bool :=
  match v with
  | JArr items => forallb tame items
  | JObj props =>
      negb (bool_decide ("toString" ∈ props.*1)) &&
      forallb (fun kv => match kv with (_, x) => tame x end) props
  | _ => true
  end.

(** [entry] is the listed entry of the file: it stands at some place of
    the list, it is an object whose id is the file's, and the entries
    before it are objects with other ids. *)
Definition entryOfFile (fileId : string) (data : list JsVal) (entry : JsVal) : Prop :=
  ∃ i, data !! i = Some entry ∧
       isNullish entry = false ∧
       isString (getOwn entry "id") fileId = true ∧
       ∀ j x, (j < i)%nat → data !! j = Some x →
              isNullish x = false ∧ isString (getOwn x "id") fileId = false.

(** No listed entry is the file's: all are objects with other ids. *)
Definition noEntryOfFile (fileId : string) (data : list JsVal) : Prop :=
  Forall (λ x, isNullish x = false ∧ isString (getOwn x "id") fileId = false) data.


(** A code unit that is neither white space nor disallowed in a sheet
    name; decimal digits are such. *)
Definition plain (c : ascii) : Prop :=
  isWhiteSpace c = false ∧ ExportExcel.isDisallowed c = false.

(** Empty, or ending with a white space. *)
Definition endsWithSpace (l : list ascii) : Prop :=
  l = [] ∨ ∃ l' c, l = l' ++ [c] ∧ isWhiteSpace c = true.

(** White space is collapsed: every white-space code unit is a space and
    no two are adjacent; [afterSpace] tells that one stands just before. *)
Fixpoint collapsed (afterSpace : bool) (l : list ascii) : Prop :=
  match l with
  | [] => True
  | c :: l' =>
      if isWhiteSpace c
      then afterSpace = false ∧ c = " "%char ∧ collapsed true l'
      else collapsed false l'
  end.

(** A text a spreadsheet accepts as a sheet name. *)
Definition sheetNameOk (n : string) : Prop :=
  (strlen n ≤ 31)%nat ∧ Forall (λ c, ExportExcel.isDisallowed c = false) (chars n).

(** How [uniqueSheetName] chooses the name for [base] when the names in
    [earlier] are taken: [base] itself when it is free, and otherwise the
    candidate of the least counter from 2 on that is free. *)
Definition nameChoice (base : string) (earlier : list string) (n : string) : Prop :=
  ((base ∉ earlier) ∧ n = base) ∨
  (base ∈ earlier ∧
   ∃ k, (2 ≤ k ≤ 2 + N.of_nat (length earlier))%N ∧
        n = ExportExcel.suffixed base k ∧
        (n ∉ earlier) ∧
        ∀ j, (2 ≤ j < k)%N → ExportExcel.suffixed base j ∈ earlier).

(** The sheet names of a workbook, in order. *)
Definition sheetNames (wb : ExportExcel.Workbook) : list string :=
  ExportExcel.ws_name <$> wb.

(** Every completed run of [m] only appends to the trace and, when it
    returns a value, returns one that satisfies [Q]. *)
Definition ensures {A : Type} (m : M A) (Q : A → Prop) : Prop :=
  ∀ tr c tr', m tr = Some (c, tr') →
    tr `prefix_of` tr' ∧ ∀ a, c = Return a → Q a.

(** The status code of a response of the upload route agrees with its
    [ok] field. *)
Definition uploadReply (resp : Upload.Response) : Prop :=
  (Upload.status resp = 200 ∧ getOwn (Upload.body resp) "ok" = JBool true) ∨
  ((Upload.status resp = 400 ∨ Upload.status resp = 500) ∧
   getOwn (Upload.body resp) "ok" = JBool false).

(** The number of sleeps in a trace, and the number of remote calls. *)
Definition sleeps (tr : list Event) : nat :=
  length (List.filter (λ ev, match ev with Sleep _ => true | Call _ _ => false end) tr).

Definition calls (tr : list Event) : nat :=
  length (List.filter (λ ev, match ev with Call _ _ => true | Sleep _ => false end) tr).

(** The [ok] field of a body of the extraction route. *)
Definition askOk (b : Ask.Body) : bool :=
  match b with
  | Ask.ErrorBody ok _ => ok
  | Ask.PreviewBody ok _ _ => ok
  | Ask.DataBody ok _ _ => ok
  end.

(** The time from the call of [waitForVectorStoreReady] to the end of its
    retrieval number [n], when [p] retrievals were made before the call. *)
Fixpoint elapsed (w : VectorStore.World) (p n : nat) : Z :=
  match n with
  | O => VectorStore.retrieveTime w p
  | S n' => VectorStore.retrieveTime w p + VectorStore.sleepTime w p + elapsed w (S p) n'
  end.

(** What [waitForVectorStoreReady] writes to the trace up to the end of its
    retrieval number [n]. *)
Fixpoint storeTrace (vectorStoreId : string) (n : nat) : list Event :=
  match n with
  | O => [Call "vectorStores.retrieve" [vectorStoreId]]
  | S n' => Call "vectorStores.retrieve" [vectorStoreId] :: Sleep 1500
              :: storeTrace vectorStoreId n'
  end.

(** The columns of a sheet other than [__proto__], as a set: the keys a
    normalized row has. *)
Definition rowKeys (columns : list string) : gset string :=
  list_to_set columns ∖ {[ "__proto__" ]}.

(** The width of column [c] read off its own header and cells: the first
    50 rows are sampled, in order; [None] is [NaN]. *)
Definition columnWidth (realm : Realm) (maxWidth : Z) (rows : list (gmap string string))
    (c : string) : option Z :=
  foldl (λ w row, ExportExcel.widen maxWidth w (ExportExcel.cellLength realm row c))
        (Some (Z.max 10 (Z.of_nat (strlen c) + 2))) (take 50 rows).

Module Sample.

Definition file : Upload.MulterFile :=
  Upload.mkFile "drawing.pdf" "application/pdf" [].

(** A remote service whose job shows [statuses k] at retrieval [k] and
    whose container lists [data]. *)
Definition remote (statuses : nat → string) (data : list JsVal) : Upload.Remote :=
  {| Upload.basename := λ p, p;
     Upload.files_create := λ _, Return (JObj [("id", JStr "file-1")]);
     Upload.vectorStores_create := λ _, Return (JObj [("id", JStr "vs_1")]);
     Upload.fileBatches_create := λ _ _, Return (JObj [("id", JStr "vsfb_1")]);
     Upload.fileBatches_retrieve := λ _ _ k, Return (JObj [("status", JStr (statuses k))]);
     Upload.files_list := λ _, Return data |}.

Definition submitted : list Event :=
  [ Call "files.create" ["drawing.pdf"; "application/pdf"; "user_data"];
    Call "vectorStores.create" ["upload:drawing.pdf"];
    Call "vectorStores.fileBatches.create" ["vs_1"; "file-1"] ].

Definition failedEntry : JsVal :=
  JObj [("id", JStr "file-1"); ("status", JStr "failed");
        ("last_error", JObj [("code", JStr "unsupported_file");
                             ("message", JStr "The file could not be parsed.")])].

Definition otherEntry : JsVal :=
  JObj [("id", JStr "file-0"); ("status", JStr "completed"); ("last_error", JNull)].

(** An entry of another file whose indexing failed earlier *)
Definition staleEntry : JsVal :=
  JObj [("id", JStr "file-9"); ("status", JStr "failed");
        ("last_error", JObj [("code", JStr "server_error");
                             ("message", JStr "Indexing failed.")])].

(** The members of [Object.prototype], with the text V8 prints for them
    and their [length]; [__proto__] is the prototype object itself. *)
Definition objectPrototype : list (string * Native) :=
  [ ("constructor", mkNative "function Object() { [native code] }" (Some 1));
    ("__defineGetter__", mkNative "function __defineGetter__() { [native code] }" (Some 2));
    ("__defineSetter__", mkNative "function __defineSetter__() { [native code] }" (Some 2));
    ("hasOwnProperty", mkNative "function hasOwnProperty() { [native code] }" (Some 1));
    ("__lookupGetter__", mkNative "function __lookupGetter__() { [native code] }" (Some 1));
    ("__lookupSetter__", mkNative "function __lookupSetter__() { [native code] }" (Some 1));
    ("isPrototypeOf", mkNative "function isPrototypeOf() { [native code] }" (Some 1));
    ("propertyIsEnumerable",
     mkNative "function propertyIsEnumerable() { [native code] }" (Some 1));
    ("toString", mkNative "function toString() { [native code] }" (Some 0));
    ("valueOf", mkNative "function valueOf() { [native code] }" (Some 0));
    ("__proto__", mkNative "[object Object]" None);
    ("toLocaleString", mkNative "function toLocaleString() { [native code] }" (Some 0)) ].

(** A realm for the samples, all of whose rows are objects: what an
    object inherits from [Object.prototype]. *)
Definition realm : Realm := λ kind name,
  match kind with
  | KObject => snd <$> List.find (λ kn, bool_decide (fst kn = name)) objectPrototype
  | _ => None
  end.

(** A stand-in for [JSON.parse] that knows the texts listed in [known]
    and rejects every other text. *)
Fixpoint parser (known : list (string * JsVal)) (text : string) : option JsVal :=
  match known with
  | [] => None
  | (t, v) :: known' => if decide (t = text) then Some v else parser known' text
  end.

(** A completion service that answers [text] whatever the file. *)
Definition askEnv (text : option string) (known : list (string * JsVal)) : Ask.Env :=
  {| Ask.responses_create := λ _, Return (Ask.mkModelResponse text);
     Ask.JSON_parse := parser known;
     Ask.nowISO := "2024-01-01T00:00:00.000Z";
     Ask.realm := realm |}.

Definition q (s : string) : string := String "034"%char "" +:+ s +:+ String "034"%char "".


Definition tbl (name : string) : JsVal := JObj [("tableName", JStr name)].

(** A vector store that shows [statuses k] at retrieval [k]; a retrieval
    takes 100 ms and a sleep 1500 ms. *)
Definition world (statuses : nat → string) : VectorStore.World :=
  {| VectorStore.retrieve := λ _ k, Return (JObj [("status", JStr (statuses k))]);
     VectorStore.retrieveTime := λ _, 100;
     VectorStore.sleepTime := λ _, 1500 |}.

Definition startState : VectorStore.State :=
  {| VectorStore.now := 1700000000000; VectorStore.polls := 0; VectorStore.trace := [] |}.

Definition readyEntry : JsVal :=
  JObj [("id", JStr "file-1"); ("status", JStr "completed"); ("last_error", JNull)].

(** The text [{"tables":[{"columns":["id","note"],"rows":[{"id":5}]}]}]
    and its value *)
Definition partsText : string :=
  "{" +:+ q "tables" +:+ ":[{" +:+ q "columns" +:+ ":[" +:+ q "id" +:+ "," +:+ q "note"
  +:+ "]," +:+ q "rows" +:+ ":[{" +:+ q "id" +:+ ":5}]}]}".

Definition parts : JsVal :=
  JObj [("tables", JArr [JObj [("columns", JArr [JStr "id"; JStr "note"]);
                               ("rows", JArr [JObj [("id", JNum (NumInt 5))]])]])].

(** The text [{"tables":[{"columns":["id","__proto__"],"rows":[{"id":5}]}]}]
    and its value *)
Definition protoText : string :=
  "{" +:+ q "tables" +:+ ":[{" +:+ q "columns" +:+ ":[" +:+ q "id" +:+ "," +:+ q "__proto__"
  +:+ "]," +:+ q "rows" +:+ ":[{" +:+ q "id" +:+ ":5}]}]}".

Definition proto : JsVal :=
  JObj [("tables", JArr [JObj [("columns", JArr [JStr "id"; JStr "__proto__"]);
                               ("rows", JArr [JObj [("id", JNum (NumInt 5))]])]])].

(** The text [{"documentText":[{"content":"NOTES"},{"order":7}]}] and its
    value *)
Definition notesText : string :=
  "{" +:+ q "documentText" +:+ ":[{" +:+ q "content" +:+ ":" +:+ q "NOTES" +:+ "},{"
  +:+ q "order" +:+ ":7}]}".

Definition notes : JsVal :=
  JObj [("documentText", JArr [JObj [("content", JStr "NOTES")];
                                JObj [("order", JNum (NumInt 7))]])].

Definition wideRows : list (gmap string string) :=
  [ {[ "id" := "5"; "note" := "" ]};
    {[ "id" := "A-1001-REV-B"; "note" := "see drawing" ]} ].

Definition toLower (c : ascii) : ascii :=
  let n := Ascii.N_of_ascii c in
  if decide (65 ≤ n ≤ 90)%N then Ascii.ascii_of_N (n + 32) else c.

Definition lower (s : string) : string := str (toLower <$> chars s).

Definition quote : ascii := "'"%char.

(** A stand-in for ExcelJS that knows three of its rules for sheet names:
    [History] is protected, a name neither starts nor ends with a single
    quotation mark, and two names of a workbook differ by more than
    case.  Filling a sheet and writing the buffer raise nothing. *)
Definition excel : ExportExcel.Env :=
  {| ExportExcel.realm := realm;
     ExportExcel.addWorksheet := λ names n,
       if decide (n = "History") then
         Some (Error ("The name " +:+ q "History" +:+
                      " is protected. Please use a different name."))
       else if decide (head (chars n) = Some quote ∨ last (chars n) = Some quote) then
         Some (Error ("The first or last character of worksheet name cannot be " +:+
                      "a single quotation mark: " +:+ n))
       else if decide (lower n ∈ lower <$> names) then
         Some (Error ("Worksheet name already exists: " +:+ n))
       else None;
     ExportExcel.fillSheet := λ _, None;
     ExportExcel.writeBuffer := λ _, None |}.

(** A library that raises nothing. *)
Definition quietExcel : ExportExcel.Env :=
  {| ExportExcel.realm := realm;
     ExportExcel.addWorksheet := λ _ _, None;
     ExportExcel.fillSheet := λ _, None;
     ExportExcel.writeBuffer := λ _, None |}.

End Sample.

(* ===================================================================== *)
(** * The upload route                                                    *)
(* ===================================================================== *)

Section upload.
Import Upload.
Context (r : Remote) (fileId vectorStoreId batchId : string).

Lemma pollBatch_pending fuel k tr :
  nonTerminal (fileBatches_retrieve r batchId vectorStoreId k) →
  pollBatch (S fuel) r k fileId vectorStoreId batchId tr
  = pollBatch fuel r (S k) fileId vectorStoreId batchId
      (tr ++ [Call "vectorStores.fileBatches.retrieve" [batchId; vectorStoreId];
              Sleep 1500]).
Proof.
  intros (s & Hs & Hc & Hf). unfold shownStatus in Hs.
  cbn [pollBatch]. unfold bind at 1, retrieveBatch, await.
  destruct (fileBatches_retrieve r batchId vectorStoreId k) as [b|e]; [|done].
  unfold bind at 1, eval.
  destruct (getC b "status") as [s'|e]; [|done].
  injection Hs as ->. rewrite Hc, Hf.
  unfold bind, sleep. by rewrite <-app_assoc.
Qed.

(** A job that never shows a terminal status keeps the loop running,
    whatever the fuel. *)
Lemma pollBatch_running fuel : ∀ k tr,
  (∀ j, nonTerminal (fileBatches_retrieve r batchId vectorStoreId j)) →
  pollBatch fuel r k fileId vectorStoreId batchId tr = None.
Proof.
  induction fuel as [|fuel IH]; intros k tr Hall; [done|].
  rewrite pollBatch_pending by done. by apply IH.
Qed.

Lemma pollBatch_completed fuel k tr s b :
  fileBatches_retrieve r batchId vectorStoreId k = Return b →
  getC b "status" = Return s →
  isString s "completed" = true →
  pollBatch (S fuel) r k fileId vectorStoreId batchId tr
  = Some (Return None,
          tr ++ [Call "vectorStores.fileBatches.retrieve" [batchId; vectorStoreId]]).
Proof.
  intros Hb Hs Hc. cbn [pollBatch]. unfold bind, retrieveBatch, await, eval.
  by rewrite Hb, Hs, Hc.
Qed.

Lemma pollBatch_breaks n : ∀ fuel k tr,
  (∀ j, (j < n)%nat →
        nonTerminal (fileBatches_retrieve r batchId vectorStoreId (k + j))) →
  (∃ s, shownStatus (fileBatches_retrieve r batchId vectorStoreId (k + n)) = Some s ∧
        isString s "completed" = true) →
  (n < fuel)%nat →
  pollBatch fuel r k fileId vectorStoreId batchId tr
  = Some (Return None, tr ++ pollTrace batchId vectorStoreId n).
Proof.
  induction n as [|n IH]; intros fuel k tr Hpend (s & Hs & Hc) Hfuel;
    (destruct fuel as [|fuel]; [lia|]).
  - rewrite Nat.add_0_r in Hs. unfold shownStatus in Hs.
    destruct (fileBatches_retrieve r batchId vectorStoreId k) as [b|] eqn:Hb; [|done].
    destruct (getC b "status") as [s'|] eqn:Hs'; [|done].
    injection Hs as ->. by erewrite pollBatch_completed.
  - rewrite pollBatch_pending.
    2:{ specialize (Hpend 0%nat). rewrite Nat.add_0_r in Hpend. apply Hpend. lia. }
    rewrite (IH fuel (S k)); [by rewrite <-app_assoc| | |lia].
    + intros j Hj. replace (S k + j)%nat with (k + S j)%nat by lia.
      apply Hpend. lia.
    + exists s. by replace (S k + n)%nat with (k + S n)%nat by lia.
Qed.

Lemma pollBatch_failed fuel k tr b :
  fileBatches_retrieve r batchId vectorStoreId k = Return b →
  getC b "status" = Return (JStr "failed") →
  pollBatch (S fuel) r k fileId vectorStoreId batchId tr
  = Some (Return (Some (mkResponse 500 (JObj [
            ("ok", JBool false);
            ("error", JStr "File batch failed during vector store processing");
            ("fileId", JStr fileId);
            ("vectorStoreId", JStr vectorStoreId);
            ("batchId", JStr batchId);
            ("batchStatus", b) ]))),
          tr ++ [Call "vectorStores.fileBatches.retrieve" [batchId; vectorStoreId]]).
Proof.
  intros Hb Hs. cbn [pollBatch]. unfold bind, retrieveBatch, await, eval.
  by rewrite Hb, Hs.
Qed.

(** The handler after a successful submission. *)
Lemma post_submitted fuel f tr tr1 :
  submit r f tr = Some (Return (fileId, vectorStoreId, batchId), tr1) →
  post fuel r (Some f) tr
  = match pollBatch fuel r 0 fileId vectorStoreId batchId tr1 with
    | Some (Return (Some resp), tr2) => Some (Return resp, tr2)
    | Some (Return None, tr2) =>
        match checkEntry r fileId vectorStoreId batchId tr2 with
        | Some (Throw e, tr3) => Some (Return (onError e), tr3)
        | o => o
        end
    | Some (Throw e, tr2) => Some (Return (onError e), tr2)
    | None => None
    end.
Proof.
  intros Hsub. unfold post, tryCatch, tryBlock. unfold bind at 1. rewrite Hsub.
  unfold bind.
  destruct (pollBatch fuel r 0 fileId vectorStoreId batchId tr1)
    as [[[[resp|]|e] tr2]|]; done.
Qed.

(** When no entry matches, every entry could be read, so the context list
    of the response is built without an exception. *)
Lemma findEntry_None_idStatus data :
  findEntry fileId data = Return None →
  idStatus data
  = Return ((λ x, JObj [("id", getOwn x "id"); ("status", getOwn x "status")]) <$> data).
Proof.
  induction data as [|x data IH]; [done|]. cbn [findEntry idStatus fmap list_fmap].
  unfold getC, get. destruct (isNullish x); [done|].
  destruct (isString (getOwn x "id") fileId); [done|].
  intros H. by rewrite (IH H).
Qed.

(** [find] returns the first listed entry with the file's id. *)
Lemma findEntry_entryOfFile data entry :
  entryOfFile fileId data entry → findEntry fileId data = Return (Some entry).
Proof.
  intros (i & Hi & Hobj & Hid & Hbefore).
  revert data Hi Hbefore. induction i as [|i IH]; intros [|x data] Hi Hbefore; try done.
  - injection Hi as ->. cbn [findEntry]. unfold getC, get. by rewrite Hobj, Hid.
  - cbn [findEntry]. destruct (Hbefore 0%nat x) as [Hx Hxid]; [lia|done|].
    unfold getC, get. rewrite Hx, Hxid. apply IH; [done|].
    intros j y Hj Hy. apply (Hbefore (S j)); [lia|done].
Qed.

(** [find] returns [undefined] when no listed entry has the file's id. *)
Lemma findEntry_noEntryOfFile data :
  noEntryOfFile fileId data → findEntry fileId data = Return None.
Proof.
  induction 1 as [|x data [Hx Hid] _ IH]; [done|].
  cbn [findEntry]. unfold getC, get. by rewrite Hx, Hid.
Qed.

End upload.

(** C1, the indexing-job status loop of the upload orchestrator: once the
    file is submitted, a job whose status is never [completed] nor [failed]
    keeps the handler polling for every amount of fuel.  No elapsed-time
    check leaves the loop, so no Timeout error is ever produced. *)
Theorem upload_poll_loop_unbounded (r : Upload.Remote) (f : Upload.MulterFile)
    (fileId vectorStoreId batchId : string) (tr tr1 : list Event) :
  Upload.submit r f tr = Some (Return (fileId, vectorStoreId, batchId), tr1) →
  (∀ k, nonTerminal (Upload.fileBatches_retrieve r batchId vectorStoreId k)) →
  ∀ fuel, Upload.post fuel r (Some f) tr = None.
Proof.
  intros Hsub Hall fuel. rewrite (post_submitted _ _ _ _ _ _ _ _ Hsub).
  by rewrite pollBatch_running.
Qed.

Lemma upload_poll_loop_unbounded_witness :
  Upload.post 1000 (Sample.remote (λ _, "in_progress") []) (Some Sample.file) [] = None.
Proof.
  apply (upload_poll_loop_unbounded _ _ "file-1" "vs_1" "vsfb_1" [] Sample.submitted).
  - reflexivity.
  - intros k. exists (JStr "in_progress"). repeat split; reflexivity.
Defined.

(** C4: when the first retrieval of the indexing job shows [failed], the
    handler answers 500 with the job object as [batchStatus]; the trace
    holds that single retrieval after the submission, hence no further
    retrieval and no sleep. *)
Theorem upload_failed_on_first_poll (r : Upload.Remote) (f : Upload.MulterFile)
    (fileId vectorStoreId batchId : string) (tr tr1 : list Event)
    (b : JsVal) (fuel : nat) :
  Upload.submit r f tr = Some (Return (fileId, vectorStoreId, batchId), tr1) →
  Upload.fileBatches_retrieve r batchId vectorStoreId 0 = Return b →
  getC b "status" = Return (JStr "failed") →
  Upload.post (S fuel) r (Some f) tr
  = Some (Return (Upload.mkResponse 500 (JObj [
            ("ok", JBool false);
            ("error", JStr "File batch failed during vector store processing");
            ("fileId", JStr fileId);
            ("vectorStoreId", JStr vectorStoreId);
            ("batchId", JStr batchId);
            ("batchStatus", b) ])),
          tr1 ++ [Call "vectorStores.fileBatches.retrieve" [batchId; vectorStoreId]]).
Proof.
  intros Hsub Hb Hs. rewrite (post_submitted _ _ _ _ _ _ _ _ Hsub).
  by rewrite (pollBatch_failed _ _ _ _ _ _ _ _ Hb Hs).
Qed.

Lemma upload_failed_on_first_poll_witness :
  Upload.post 1 (Sample.remote (λ _, "failed") []) (Some Sample.file) []
  = Some (Return (Upload.mkResponse 500 (JObj [
            ("ok", JBool false);
            ("error", JStr "File batch failed during vector store processing");
            ("fileId", JStr "file-1");
            ("vectorStoreId", JStr "vs_1");
            ("batchId", JStr "vsfb_1");
            ("batchStatus", JObj [("status", JStr "failed")]) ])),
          Sample.submitted
            ++ [Call "vectorStores.fileBatches.retrieve" ["vsfb_1"; "vs_1"]]).
Proof.
  apply (upload_failed_on_first_poll _ _ "file-1" "vs_1" "vsfb_1" [] Sample.submitted);
    reflexivity.
Defined.

(** C2: when the indexing job is seen [completed] but the entry of the
    container's file list that carries the submitted file's id (the first
    such entry, the entries before it being objects with other ids) has
    status [failed], the handler answers 500 with [ok: false] and the
    entry's [last_error] unchanged; it is not the success response. *)
Theorem upload_per_file_failure (r : Upload.Remote) (f : Upload.MulterFile)
    (fileId vectorStoreId batchId : string) (tr tr1 : list Event)
    (n fuel : nat) (data : list JsVal) (entry : JsVal) :
  Upload.submit r f tr = Some (Return (fileId, vectorStoreId, batchId), tr1) →
  completesAt r batchId vectorStoreId n →
  Upload.files_list r vectorStoreId = Return data →
  entryOfFile fileId data entry →
  isString (getOwn entry "status") "failed" = true →
  (n < fuel)%nat →
  ∃ body,
    Upload.post fuel r (Some f) tr
    = Some (Return (Upload.mkResponse 500 body),
            tr1 ++ pollTrace batchId vectorStoreId n
                ++ [Call "vectorStores.files.list" [vectorStoreId]]) ∧
    body = JObj [
      ("ok", JBool false);
      ("error", JStr "Vector store indexing failed for this file");
      ("fileId", JStr fileId);
      ("vectorStoreId", JStr vectorStoreId);
      ("batchId", JStr batchId);
      ("vectorStoreFile", JObj [
         ("id", getOwn entry "id");
         ("status", getOwn entry "status");
         ("last_error", getOwn entry "last_error") ]) ] ∧
    getOwn body "ok" = JBool false ∧
    getOwn (getOwn body "vectorStoreFile") "last_error" = getOwn entry "last_error".
Proof.
  intros Hsub [Hpend Hdone] Hlist Hfind Hfailed Hfuel.
  eexists. split; [|split; [reflexivity|split; reflexivity]].
  rewrite (post_submitted _ _ _ _ _ _ _ _ Hsub).
  rewrite (pollBatch_breaks r fileId vectorStoreId batchId n fuel 0 tr1); [|done..].
  unfold Upload.checkEntry, bind, await, eval.
  rewrite Hlist, (findEntry_entryOfFile _ _ _ Hfind), Hfailed.
  unfold ret. by rewrite <-app_assoc.
Qed.

Lemma upload_per_file_failure_witness :
  ∃ body,
    Upload.post 2 (Sample.remote (λ k, if k is O then "in_progress" else "completed")
                                 [Sample.staleEntry; Sample.failedEntry; Sample.otherEntry])
                (Some Sample.file) []
    = Some (Return (Upload.mkResponse 500 body),
            Sample.submitted ++ pollTrace "vsfb_1" "vs_1" 1
              ++ [Call "vectorStores.files.list" ["vs_1"]]) ∧
    body = JObj [
      ("ok", JBool false);
      ("error", JStr "Vector store indexing failed for this file");
      ("fileId", JStr "file-1");
      ("vectorStoreId", JStr "vs_1");
      ("batchId", JStr "vsfb_1");
      ("vectorStoreFile", JObj [
         ("id", getOwn Sample.failedEntry "id");
         ("status", getOwn Sample.failedEntry "status");
         ("last_error", getOwn Sample.failedEntry "last_error") ]) ] ∧
    getOwn body "ok" = JBool false ∧
    getOwn (getOwn body "vectorStoreFile") "last_error"
    = getOwn Sample.failedEntry "last_error".
Proof.
  apply (upload_per_file_failure _ _ "file-1" "vs_1" "vsfb_1" [] Sample.submitted 1 2
           [Sample.staleEntry; Sample.failedEntry; Sample.otherEntry] Sample.failedEntry).
  - reflexivity.
  - split.
    + intros [|j] Hj; [|lia]. exists (JStr "in_progress"). repeat split; reflexivity.
    + exists (JStr "completed"). split; reflexivity.
  - reflexivity.
  - exists 1%nat. split; [reflexivity|]. split; [reflexivity|]. split; [reflexivity|].
    intros [|j] x Hj Hx; [|lia]. injection Hx as <-. split; reflexivity.
  - reflexivity.
  - lia.
Defined.

(** C3: when the indexing job is seen [completed] and no entry of the
    container's file list has the submitted file's id (the entries are
    objects with other ids, or there is none), the handler answers
    500, [ok: false], with the message of its own that names the file as
    missing after completion and with the id and status of every listed
    entry; this response is neither the success response nor the one the
    [catch] block builds from an exception. *)
Theorem upload_missing_entry (r : Upload.Remote) (f : Upload.MulterFile)
    (fileId vectorStoreId batchId : string) (tr tr1 : list Event)
    (n fuel : nat) (data : list JsVal) :
  Upload.submit r f tr = Some (Return (fileId, vectorStoreId, batchId), tr1) →
  completesAt r batchId vectorStoreId n →
  Upload.files_list r vectorStoreId = Return data →
  noEntryOfFile fileId data →
  (n < fuel)%nat →
  ∃ resp,
    Upload.post fuel r (Some f) tr
    = Some (Return resp,
            tr1 ++ pollTrace batchId vectorStoreId n
                ++ [Call "vectorStores.files.list" [vectorStoreId]]) ∧
    resp = Upload.mkResponse 500 (JObj [
      ("ok", JBool false);
      ("error", JStr "File not found in vector store after batch completed");
      ("fileId", JStr fileId);
      ("vectorStoreId", JStr vectorStoreId);
      ("batchId", JStr batchId);
      ("files", JArr ((λ x, JObj [("id", getOwn x "id"); ("status", getOwn x "status")])
                        <$> data)) ]) ∧
    (∀ err, resp ≠ Upload.onError err).
Proof.
  intros Hsub [Hpend Hdone] Hlist Hnone Hfuel.
  pose proof (findEntry_noEntryOfFile _ _ Hnone) as Hfind.
  eexists. split; [|split; [reflexivity|]].
  - rewrite (post_submitted _ _ _ _ _ _ _ _ Hsub).
    rewrite (pollBatch_breaks r fileId vectorStoreId batchId n fuel 0 tr1); [|done..].
    unfold Upload.checkEntry, bind, await, eval.
    rewrite Hlist, Hfind, (findEntry_None_idStatus _ _ Hfind).
    unfold ret. by rewrite <-app_assoc.
  - intros err. unfold Upload.onError. discriminate.
Qed.

Lemma upload_missing_entry_witness :
  ∃ resp,
    Upload.post 1 (Sample.remote (λ _, "completed") [Sample.otherEntry; Sample.staleEntry])
                (Some Sample.file) []
    = Some (Return resp,
            Sample.submitted ++ pollTrace "vsfb_1" "vs_1" 0
              ++ [Call "vectorStores.files.list" ["vs_1"]]) ∧
    resp = Upload.mkResponse 500 (JObj [
      ("ok", JBool false);
      ("error", JStr "File not found in vector store after batch completed");
      ("fileId", JStr "file-1");
      ("vectorStoreId", JStr "vs_1");
      ("batchId", JStr "vsfb_1");
      ("files", JArr ((λ x, JObj [("id", getOwn x "id"); ("status", getOwn x "status")])
                        <$> [Sample.otherEntry; Sample.staleEntry])) ]) ∧
    (∀ err, resp ≠ Upload.onError err).
Proof.
  apply (upload_missing_entry _ _ "file-1" "vs_1" "vsfb_1" [] Sample.submitted 0 1
           [Sample.otherEntry; Sample.staleEntry]).
  - reflexivity.
  - split.
    + intros j Hj. lia.
    + exists (JStr "completed"). split; reflexivity.
  - reflexivity.
  - repeat constructor.
  - lia.
Defined.

(* ===================================================================== *)
(** * The vector-store readiness poller                                   *)
(* ===================================================================== *)

Section vectorStore.
Import VectorStore.
Context (w : World) (vectorStoreId : string) (timeoutMs start : Z).

(** Time does not run backwards during a retrieval, and [sleep(1500)]
    lasts at least the delay asked for. *)
Hypothesis retrieveTime_nonneg : ∀ k, 0 ≤ retrieveTime w k.
Hypothesis sleepTime_lower : ∀ k, 1500 ≤ sleepTime w k.

(** The store is never seen [completed]. *)
Hypothesis never_completed : ∀ k, ∃ vs s,
  retrieve w vectorStoreId k = Return vs ∧ getC vs "status" = Return s ∧
  isString s "completed" = false.

Lemma waitLoop_times_out (N : nat) : ∀ st,
  timeoutMs - (now st - start) < 1500 * Z.of_nat N →
  ∃ n vs s st',
    (n ≤ N)%nat ∧
    retrieve w vectorStoreId (polls st + n) = Return vs ∧
    getC vs "status" = Return s ∧
    timeoutMs < now st' - start ∧
    polls st' = S (polls st + n) ∧
    ∀ fuel, (n < fuel)%nat →
      waitLoop fuel w vectorStoreId timeoutMs start st
      = Some (Throw (timeoutError vectorStoreId s), st').
Proof.
  induction N as [|N IH]; intros st Hleft;
    destruct (never_completed (polls st)) as (vs & s & Hvs & Hs & Hc);
    pose proof (retrieveTime_nonneg (polls st)) as Hrt;
    pose proof (sleepTime_lower (polls st)) as Hsl.
  - exists 0%nat, vs, s. eexists. rewrite Nat.add_0_r.
    split; [lia|]. split; [done|]. split; [done|].
    split; [|split]; last first.
    + intros [|fuel] Hfuel; [lia|]. cbn [waitLoop]. rewrite Hvs, Hs, Hc.
      cbn [now]. rewrite decide_True by lia. reflexivity.
    + reflexivity.
    + cbn [now]. lia.
  - destruct (decide (now st + retrieveTime w (polls st) - start > timeoutMs)) as [Hout|Hin].
    + exists 0%nat, vs, s. eexists. rewrite Nat.add_0_r.
      split; [lia|]. split; [done|]. split; [done|].
      split; [|split]; last first.
      * intros [|fuel] Hfuel; [lia|]. cbn [waitLoop]. rewrite Hvs, Hs, Hc.
        cbn [now]. rewrite decide_True by lia. reflexivity.
      * reflexivity.
      * cbn [now]. lia.
    + set (st2 := {| now := now st + retrieveTime w (polls st) + sleepTime w (polls st);
                     polls := S (polls st);
                     trace := (trace st ++ [Call "vectorStores.retrieve" [vectorStoreId]])
                                ++ [Sleep 1500] |}).
      destruct (IH st2) as (n & vs' & s' & st' & Hn & Hvs' & Hs' & Hlate & Hpolls & Hrun).
      { cbn [now st2]. lia. }
      exists (S n), vs', s', st'. cbn [polls st2] in Hvs', Hpolls.
      replace (polls st + S n)%nat with (S (polls st) + n)%nat by lia.
      split; [lia|]. split; [done|]. split; [done|]. split; [done|]. split; [done|].
      intros [|fuel] Hfuel; [lia|]. cbn [waitLoop]. rewrite Hvs, Hs, Hc.
      cbn [now polls trace]. rewrite decide_False by lia.
      apply Hrun. lia.
Qed.

End vectorStore.

(** X7: the sibling loop in [src/lib/vectorStore.ts] does have the
    elapsed-time check that the upload loop lacks: a store that is never
    seen [completed] (a [failed] store included) makes
    [waitForVectorStoreReady] throw its time-out error, which quotes the
    status of the last retrieval, after at most [timeoutMs / 1500 + 2]
    retrievals.  The error's message is the text of the source with
    [String] of that status; when the status has no string form, the
    exception of the conversion is what is thrown. *)
Lemma waitForVectorStoreReady_bounded (w : VectorStore.World)
    (vectorStoreId : string) (timeoutMs : Z) (st : VectorStore.State) :
  0 ≤ timeoutMs →
  (∀ k, 0 ≤ VectorStore.retrieveTime w k) →
  (∀ k, 1500 ≤ VectorStore.sleepTime w k) →
  (∀ k, ∃ vs s,
      VectorStore.retrieve w vectorStoreId k = Return vs ∧
      getC vs "status" = Return s ∧ isString s "completed" = false) →
  ∃ n vs s st',
    Z.of_nat n ≤ timeoutMs / 1500 + 1 ∧
    VectorStore.retrieve w vectorStoreId (VectorStore.polls st + n) = Return vs ∧
    getC vs "status" = Return s ∧
    timeoutMs < VectorStore.now st' - VectorStore.now st ∧
    VectorStore.polls st' = S (VectorStore.polls st + n) ∧
    (∀ fuel, (n < fuel)%nat →
      VectorStore.waitForVectorStoreReady fuel w vectorStoreId timeoutMs st
      = Some (Throw (VectorStore.timeoutError vectorStoreId s), st')) ∧
    VectorStore.timeoutError vectorStoreId s
    = match ToString s with
      | Return text =>
          Error ("Timed out waiting for vector store " +:+ vectorStoreId +:+
                 " to be ready (last status: " +:+ text +:+ ")")
      | Throw e => e
      end.
Proof.
  intros Hto Hrt Hsl Hnever.
  destruct (waitLoop_times_out w vectorStoreId timeoutMs (VectorStore.now st)
              Hrt Hsl Hnever (Z.to_nat (timeoutMs / 1500 + 1)) st)
    as (n & vs & s & st' & Hn & Hvs & Hs & Hlate & Hpolls & Hrun).
  { pose proof (Z.mod_pos_bound timeoutMs 1500 ltac:(lia)).
    pose proof (Z.div_mod timeoutMs 1500 ltac:(lia)).
    pose proof (Z.div_pos timeoutMs 1500 Hto ltac:(lia)). lia. }
  exists n, vs, s, st'. split; [|done].
  pose proof (Z.div_pos timeoutMs 1500 Hto ltac:(lia)). lia.
Qed.

(* ===================================================================== *)
(** * Strings                                                             *)
(* ===================================================================== *)

Lemma chars_str (l : list ascii) : chars (str l) = l.
Proof. apply String.list_ascii_of_string_of_list_ascii. Qed.

Lemma str_chars (s : string) : str (chars s) = s.
Proof. apply String.string_of_list_ascii_of_string. Qed.

Lemma chars_inj (s1 s2 : string) : chars s1 = chars s2 → s1 = s2.
Proof. intros H. by rewrite <-(str_chars s1), <-(str_chars s2), H. Qed.

Lemma chars_app (s1 s2 : string) : chars (s1 +:+ s2) = chars s1 ++ chars s2.
Proof.
  unfold chars. induction s1 as [|c s1 IH]; [done|].
  change (String c s1 +:+ s2) with (String c (s1 +:+ s2)).
  cbn [String.list_ascii_of_string]. by rewrite IH.
Qed.

Lemma strlen_str (l : list ascii) : strlen (str l) = length l.
Proof. unfold strlen. by rewrite chars_str. Qed.

Lemma chars_slice0 (s : string) (e : Z) :
  0 ≤ e → chars (slice0 s e) = take (Z.to_nat e) (chars s).
Proof.
  intros He. unfold slice0, slice0_chars. rewrite chars_str.
  by rewrite decide_False by lia.
Qed.

(* ===================================================================== *)
(** * Values and coercions                                                *)
(* ===================================================================== *)

Section JsVal_induction.
Context (P : JsVal → Prop).
Hypothesis Hundefined : P JUndefined.
Hypothesis Hnull : P JNull.
Hypothesis Hbool : ∀ b, P (JBool b).
Hypothesis Hnum : ∀ n, P (JNum n).
Hypothesis Hstr : ∀ s, P (JStr s).
Hypothesis Harr : ∀ items, Forall P items → P (JArr items).
Hypothesis Hobj : ∀ props, Forall (λ kv, P kv.2) props → P (JObj props).
Hypothesis Hnative : ∀ n, P (JNative n).

(** Induction on a value, with the property known of the elements of an
    array and of the properties of an object. *)
Lemma JsVal_induction : ∀ v, P v.
Proof.
  fix IH 1. intros [| |b|n|s|items|props|n].
  - exact Hundefined.
  - exact Hnull.
  - apply Hbool.
  - apply Hnum.
  - apply Hstr.
  - apply Harr. revert items. fix IHl 1. intros [|x items].
    + constructor.
    + constructor; [apply IH|apply IHl].
  - apply Hobj. revert props. fix IHl 1. intros [|[k x] props].
    + constructor.
    + constructor; [apply IH|apply IHl].
  - apply Hnative.
Qed.

End JsVal_induction.

Section mapC.
Context {A B : Type} (f : A → Completion B).

(** A [map] that returns has visited every element, in order. *)
Lemma mapC_Return (l : list A) (ys : list B) :
  mapC f l = Return ys ↔ Forall2 (λ x y, f x = Return y) l ys.
Proof.
  revert ys. induction l as [|x l IH]; intros ys; cbn [mapC].
  - split; [intros [= <-]; constructor|by intros ->%Forall2_nil_inv_l].
  - split.
    + destruct (f x) as [y|] eqn:Hx; [|done].
      destruct (mapC f l) as [ys'|]; [|done].
      intros [= <-]. constructor; [done|]. by apply IH.
    + intros (y & ys' & Hy & Hys & ->)%Forall2_cons_inv_l.
      rewrite Hy. apply IH in Hys. by rewrite Hys.
Qed.

(** A [map] whose callback returns on every element returns. *)
Lemma mapC_total (l : list A) :
  Forall (λ x, ∃ y, f x = Return y) l → ∃ ys, mapC f l = Return ys.
Proof.
  induction 1 as [|x l [y Hy] _ [ys Hys]]; [by eexists|].
  exists (y :: ys). cbn [mapC]. by rewrite Hy, Hys.
Qed.

(** A [map] that throws passes on the exception of its callback on one
    of the elements. *)
Lemma mapC_Throw (l : list A) (e : JsVal) :
  mapC f l = Throw e → ∃ x, x ∈ l ∧ f x = Throw e.
Proof.
  induction l as [|x l IH]; [done|]. cbn [mapC].
  destruct (f x) as [y|e'] eqn:Hx.
  - destruct (mapC f l) as [ys|e'']; [done|].
    intros [= ->]. destruct IH as (x' & Hin & Hx'); [done|].
    exists x'. split; [by right|done].
  - intros [= ->]. exists x. split; [by left|done].
Qed.

End mapC.

Lemma forallb_Forall {A : Type} (f : A → bool) (l : list A) :
  forallb f l = true ↔ Forall (λ x, f x = true) l.
Proof.
  induction l as [|x l IH]; cbn [forallb]; [by split; [constructor|]|].
  rewrite andb_true_iff, IH. split; [by intros []; constructor|by inversion 1].
Qed.

(** [String(v)] returns for a value none of whose objects owns a
    [toString] property. *)
Lemma ToString_tame (v : JsVal) : tame v = true → ∃ s, ToString v = Return s.
Proof.
  induction v as [| |[]| | |items IH|props IH|] using JsVal_induction;
    intros Htame; try by eexists.
  - cbn [ToString].
    destruct (mapC_total (λ x, if isNullish x then Return "" else ToString x) items)
      as [texts ->]; [|by eexists].
    cbn [tame] in Htame. apply forallb_Forall in Htame.
    rewrite Forall_forall in IH, Htame. apply Forall_forall. intros x Hx.
    destruct (isNullish x); [by eexists|]. apply IH; [done|]. by apply Htame.
  - cbn [ToString tame] in *. apply andb_true_iff in Htame as [Hown _].
    apply negb_true_iff in Hown. rewrite Hown. by eexists.
Qed.

Lemma tame_assoc (k : string) (props : list (string * JsVal)) :
  forallb (λ kv, match kv with (_, x) => tame x end) props = true →
  tame (assoc k props) = true.
Proof.
  induction props as [|[k' x] props IH]; [done|]. cbn [forallb assoc].
  intros [Hx Hprops]%andb_true_iff. destruct (decide (k' = k)); [done|by apply IH].
Qed.

Lemma tame_getOwn (v : JsVal) (k : string) : tame v = true → tame (getOwn v k) = true.
Proof.
  destruct v as [| | | |s|items|props|]; try done; cbn [getOwn tame].
  - destruct (decide (k = "length")); [done|].
    destruct (arrayIndex k) as [i|]; [|done]. by destruct (chars s !! i).
  - intros Hitems. destruct (decide (k = "length")); [done|].
    destruct (arrayIndex k) as [i|]; [|done].
    destruct (items !! i) as [x|] eqn:Hi; [|done]. cbn.
    apply forallb_Forall in Hitems. rewrite Forall_forall in Hitems.
    apply Hitems. by eapply list_elem_of_lookup_2.
  - intros [_ Hprops]%andb_true_iff. by apply tame_assoc.
Qed.

Lemma tame_getOpt (v : JsVal) (k : string) : tame v = true → tame (getOpt v k) = true.
Proof. intros Hv. unfold getOpt. destruct (isNullish v); [done|by apply tame_getOwn]. Qed.

Lemma tame_getComputedOpt (realm : Realm) (v : JsVal) (k : string) :
  tame v = true → tame (getComputedOpt realm v k) = true.
Proof.
  intros Hv. unfold getComputedOpt, getComputed. destruct (isNullish v); [done|].
  destruct (hasOwn v k); [by apply tame_getOwn|]. by destruct (realm (kindOf v) k).
Qed.

Lemma tame_nullish (a b : JsVal) :
  tame a = true → tame b = true → tame (nullish a b) = true.
Proof. intros Ha Hb. unfold nullish. by destruct (isNullish a). Qed.

Lemma tame_items (v : JsVal) (items : list JsVal) :
  tame v = true → arrayItems v = Some items → Forall (λ x, tame x = true) items.
Proof.
  destruct v; try done. intros Hitems [= <-]. cbn [tame] in Hitems.
  by apply forallb_Forall in Hitems.
Qed.


(* ===================================================================== *)
(** * The extraction route                                                *)
(* ===================================================================== *)

Section ask.
Import Ask.
Context (e : Env) (fileId : string) (resp : ModelResponse).
Hypothesis valid_id : startsWith fileId "file-" = true.
Hypothesis answered : responses_create e fileId = Return resp.

(** The handler once the completion service has answered. *)
Lemma get_answered tr :
  get e fileId tr
  = match JSON_parse e (default "" (output_text resp)) with
    | None =>
        Some (Return (mkResponse 500 (PreviewBody false
                        "Model did not return valid JSON."
                        (slice0 (default "" (output_text resp)) 1200))),
              tr ++ [Call "responses.create" [fileId]])
    | Some parsed =>
        match normalize e fileId parsed (tr ++ [Call "responses.create" [fileId]]) with
        | Some (Throw err, tr') =>
            Some (Return (mkResponse 500 (ErrorBody false
                            (nullish (getOpt err "message") (JStr "Ask failed")))),
                  tr')
        | o => o
        end
    end.
Proof.
  unfold get. rewrite valid_id. cbn [negb].
  unfold tryCatch, bind, await. rewrite answered.
  by destruct (JSON_parse e (default "" (output_text resp))).
Qed.

(** The normalization of a parsed value other than [null]: the two
    [map]s run in turn, and the response is made when both return. *)
Lemma normalize_non_null parsed tr :
  isNullish parsed = false →
  normalize e fileId parsed tr
  = match documentTextOf (getOwn parsed "documentText") with
    | Throw err => Some (Throw err, tr)
    | Return documentText =>
        match tablesOf (realm e) (getOwn parsed "tables") with
        | Throw err => Some (Throw err, tr)
        | Return tables =>
            Some (Return (mkResponse 200 (DataBody true fileId
              {| documentText := documentText;
                 tables := tables;
                 idAnalysis :=
                   {| ids_found_in_multiple_tables :=
                        arrayOrEmpty (getOpt (getOpt parsed "idAnalysis")
                                             "ids_found_in_multiple_tables");
                      ids_found_in_single_location :=
                        arrayOrEmpty (getOpt (getOpt parsed "idAnalysis")
                                             "ids_found_in_single_location") |};
                 meta := {| sourceFileId := fileId; generatedAtISO := nowISO e |} |})),
                  tr)
        end
    end.
Proof.
  intros Hnn. unfold normalize, bind, eval, getC, Js.get. rewrite Hnn.
  destruct (documentTextOf (getOwn parsed "documentText")); [|done].
  by destruct (tablesOf (realm e) (getOwn parsed "tables")).
Qed.

Lemma normalize_null parsed tr :
  isNullish parsed = true →
  normalize e fileId parsed tr = Some (Throw (TypeError_read parsed "documentText"), tr).
Proof. intros Hn. unfold normalize, bind, eval, getC, Js.get. by rewrite Hn. Qed.

(** A response that carries data is the success response, made from what
    the two [map]s returned. *)
Lemma get_data parsed tr st ok fid data tr' :
  JSON_parse e (default "" (output_text resp)) = Some parsed →
  get e fileId tr = Some (Return (mkResponse st (DataBody ok fid data)), tr') →
  st = 200 ∧ ok = true ∧ fid = fileId ∧
  tr' = tr ++ [Call "responses.create" [fileId]] ∧
  isNullish parsed = false ∧
  documentTextOf (getOwn parsed "documentText") = Return (documentText data) ∧
  tablesOf (realm e) (getOwn parsed "tables") = Return (tables data) ∧
  idAnalysis data
  = {| ids_found_in_multiple_tables :=
         arrayOrEmpty (getOpt (getOpt parsed "idAnalysis") "ids_found_in_multiple_tables");
       ids_found_in_single_location :=
         arrayOrEmpty (getOpt (getOpt parsed "idAnalysis") "ids_found_in_single_location") |} ∧
  meta data = {| sourceFileId := fileId; generatedAtISO := nowISO e |}.
Proof.
  intros Hparse. rewrite get_answered, Hparse.
  destruct (isNullish parsed) eqn:Hnn.
  { by rewrite normalize_null. }
  rewrite normalize_non_null by done.
  destruct (documentTextOf (getOwn parsed "documentText")) as [dt|]; [|done].
  destruct (tablesOf (realm e) (getOwn parsed "tables")) as [ts|]; [|done].
  by intros [= <- <- <- <- <-].
Qed.

End ask.

(** ** The two [map]s *)

Lemma normalizeDocumentText_Return (items : list JsVal) : ∀ i ds,
  Ask.normalizeDocumentText i items = Return ds →
  length ds = length items ∧
  ∀ j x, items !! j = Some x →
         ∃ d, ds !! j = Some d ∧ Ask.normalizeEntry (i + j) x = Return d.
Proof.
  induction items as [|x items IH]; intros i ds; cbn [Ask.normalizeDocumentText].
  - intros [= <-]. by split.
  - destruct (Ask.normalizeEntry i x) as [d|] eqn:Hx; [|done].
    destruct (Ask.normalizeDocumentText (S i) items) as [ds'|] eqn:Hds; [|done].
    intros [= <-]. destruct (IH _ _ Hds) as [Hlen Hall]. split; [by cbn; rewrite Hlen|].
    intros [|j] y Hy.
    + injection Hy as <-. exists d. by rewrite Nat.add_0_r.
    + destruct (Hall j y Hy) as (d' & Hd' & Hn). exists d'.
      by replace (i + S j)%nat with (S i + j)%nat by lia.
Qed.

Lemma normalizeDocumentText_tame (items : list JsVal) : ∀ i,
  Forall (λ x, tame x = true) items →
  ∃ ds, Ask.normalizeDocumentText i items = Return ds.
Proof.
  induction items as [|x items IH]; intros i Htame; [by eexists|].
  apply Forall_cons in Htame as [Hx Hitems].
  cbn [Ask.normalizeDocumentText]. unfold Ask.normalizeEntry.
  destruct (ToString_tame (nullish (getOpt x "content") (JStr ""))) as [s ->].
  { apply tame_nullish; [by apply tame_getOpt|done]. }
  destruct (IH (S i) Hitems) as [ds ->]. by eexists.
Qed.

(** The two routes read and coerce a cell in the same way. *)
Lemma cellText_coalesce (realm : Realm) (r : JsVal) (c : string) :
  ToString (nullish (getComputedOpt realm r c) (JStr "")) = ExportExcel.cellText realm r c.
Proof.
  unfold ExportExcel.cellText, nullish.
  by destruct (isNullish (getComputedOpt realm r c)).
Qed.

(** The two routes normalize a row in the same way. *)
Lemma normalizeRow_same (realm : Realm) (columns : list string) (r : JsVal) :
  Ask.normalizeRow realm columns r = ExportExcel.normalizeRow realm columns r.
Proof.
  unfold Ask.normalizeRow, ExportExcel.normalizeRow.
  generalize (∅ : gmap string string).
  induction columns as [|c columns IH]; intros out; [done|].
  cbn [Ask.normalizeRow_from ExportExcel.normalizeRow_from].
  rewrite cellText_coalesce. by destruct (ExportExcel.cellText realm r c).
Qed.

Lemma cellText_tame (realm : Realm) (r : JsVal) (c : string) :
  tame r = true → ∃ text, ExportExcel.cellText realm r c = Return text.
Proof.
  intros Hr. unfold ExportExcel.cellText.
  destruct (isNullish (getComputedOpt realm r c)); [by eexists|].
  by apply ToString_tame, tame_getComputedOpt.
Qed.

Lemma normalizeRow_tame (realm : Realm) (columns : list string) (r : JsVal) :
  tame r = true → ∃ out, ExportExcel.normalizeRow realm columns r = Return out.
Proof.
  intros Hr. unfold ExportExcel.normalizeRow. generalize (∅ : gmap string string).
  induction columns as [|c columns IH]; intros out; [by eexists|].
  cbn [ExportExcel.normalizeRow_from].
  destruct (cellText_tame realm r c Hr) as [text ->]. apply IH.
Qed.

(** What a row that was built holds: under every declared column other
    than [__proto__] the text of the cell, and nothing else beyond what
    [out] held. *)
Lemma normalizeRow_from_Return (realm : Realm) (r : JsVal) (columns : list string) :
  ∀ out out',
  ExportExcel.normalizeRow_from realm out columns r = Return out' →
  (∀ c, c ∈ columns →
        ∃ text, ExportExcel.cellText realm r c = Return text ∧
                (c ≠ "__proto__" → out' !! c = Some text)) ∧
  (∀ c, c ∉ columns ∨ c = "__proto__" → out' !! c = out !! c).
Proof.
  induction columns as [|x columns IH]; intros out out'; cbn [ExportExcel.normalizeRow_from].
  - intros [= <-]. split; [by intros c ?%elem_of_nil|done].
  - destruct (ExportExcel.cellText realm r x) as [text|] eqn:Hx; [|done].
    intros Hrest. destruct (IH _ _ Hrest) as [Hin Hout]. split.
    + intros c [->|Hc]%elem_of_cons.
      * exists text. split; [done|]. intros Hne.
        destruct (decide (x ∈ columns)) as [Hx'|Hx'].
        -- destruct (Hin x Hx') as (text' & Htext' & Hlook).
           rewrite Hx in Htext'. injection Htext' as <-. by apply Hlook.
        -- rewrite Hout by by left. unfold assign. rewrite decide_False by done.
           by rewrite lookup_insert_eq.
      * by apply Hin.
    + intros c Hc. destruct (decide (c = "__proto__")) as [->|Hne].
      * rewrite Hout by by right. unfold assign.
        destruct (decide (x = "__proto__")); [done|]. by rewrite lookup_insert_ne.
      * destruct Hc as [Hc|Hc]; [|done]. apply not_elem_of_cons in Hc as [Hcx Hc].
        rewrite Hout by by left. unfold assign.
        destruct (decide (x = "__proto__")); [done|]. by rewrite lookup_insert_ne.
Qed.

(** The keys of a row that was built are the declared columns other than
    [__proto__]. *)
Lemma normalizeRow_dom (realm : Realm) (columns : list string) (r : JsVal)
    (out : gmap string string) :
  ExportExcel.normalizeRow realm columns r = Return out → dom out = rowKeys columns.
Proof.
  intros Hout. apply normalizeRow_from_Return in Hout as [Hin Hnot].
  apply set_eq. intros c. unfold rowKeys.
  rewrite elem_of_dom, elem_of_difference, elem_of_list_to_set, elem_of_singleton.
  split.
  - intros [text Hc]. destruct (decide (c ∈ columns)) as [Hcol|Hcol].
    + split; [done|]. intros ->. rewrite Hnot in Hc by by right.
      by rewrite lookup_empty in Hc.
    + rewrite Hnot in Hc by by left. by rewrite lookup_empty in Hc.
  - intros [Hcol Hne]. destruct (Hin c Hcol) as (text & _ & Hc). exists text. by apply Hc.
Qed.

Lemma normalizeTable_Return (realm : Realm) (t : JsVal) (tb : Ask.Table) :
  Ask.normalizeTable realm t = Return tb →
  mapC ToString (Ask.arrayOrEmpty (getOpt t "columns")) = Return (Ask.columns tb) ∧
  mapC (Ask.normalizeRow realm (Ask.columns tb)) (Ask.arrayOrEmpty (getOpt t "rows"))
  = Return (Ask.rows tb) ∧
  ToString (nullish (getOpt t "tableName") (JStr "Unnamed Table"))
  = Return (Ask.tableName tb).
Proof.
  unfold Ask.normalizeTable, Ask.arrayOrEmpty.
  assert (∀ A (f : JsVal → Completion A) o,
            match o with Some l => mapC f l | None => Return [] end
            = mapC f (default [] o)) as Hmap by by intros A f [l|].
  rewrite Hmap.
  destruct (mapC ToString _) as [columns|] eqn:Hcolumns; [|done].
  rewrite Hmap.
  destruct (mapC (Ask.normalizeRow realm columns) _) as [rows|] eqn:Hrows; [|done].
  destruct (ToString (nullish (getOpt t "tableName") (JStr "Unnamed Table")))
    as [name|] eqn:Hname; [|done].
  by intros [= <-].
Qed.

Lemma mapC_ToString_tame (items : list JsVal) :
  Forall (λ x, tame x = true) items → ∃ texts, mapC ToString items = Return texts.
Proof.
  intros Hitems. apply mapC_total. eapply Forall_impl; [done|].
  intros x. apply ToString_tame.
Qed.

Lemma normalizeTable_tame (realm : Realm) (t : JsVal) :
  tame t = true → ∃ tb, Ask.normalizeTable realm t = Return tb.
Proof.
  intros Ht. unfold Ask.normalizeTable.
  assert (∃ columns,
             match arrayItems (getOpt t "columns") with
             | Some cs => mapC ToString cs
             | None => Return []
             end = Return columns) as [columns ->].
  { destruct (arrayItems (getOpt t "columns")) as [cs|] eqn:Hcs; [|by eexists].
    apply mapC_ToString_tame. eapply tame_items; [|done]. by apply tame_getOpt. }
  assert (∃ rows,
             match arrayItems (getOpt t "rows") with
             | Some rs => mapC (Ask.normalizeRow realm columns) rs
             | None => Return []
             end = Return rows) as [rows ->].
  { destruct (arrayItems (getOpt t "rows")) as [rs|] eqn:Hrs; [|by eexists].
    apply mapC_total. eapply Forall_impl.
    - eapply tame_items; [|done]. by apply tame_getOpt.
    - intros r Hr. rewrite normalizeRow_same. by apply normalizeRow_tame. }
  destruct (ToString_tame (nullish (getOpt t "tableName") (JStr "Unnamed Table")))
    as [name ->]; [|by eexists].
  apply tame_nullish; [by apply tame_getOpt|done].
Qed.

Lemma documentTextOf_tame (dt : JsVal) :
  tame dt = true → ∃ ds, Ask.documentTextOf dt = Return ds.
Proof.
  intros Hdt. unfold Ask.documentTextOf.
  destruct (arrayItems dt) as [items|] eqn:Hitems; [|by eexists].
  apply normalizeDocumentText_tame. by eapply tame_items.
Qed.

Lemma tablesOf_tame (realm : Realm) (ts : JsVal) :
  tame ts = true → ∃ tables, Ask.tablesOf realm ts = Return tables.
Proof.
  intros Hts. unfold Ask.tablesOf.
  destruct (arrayItems ts) as [items|] eqn:Hitems; [|by eexists].
  apply mapC_total. eapply Forall_impl; [by eapply tame_items|].
  intros t. apply normalizeTable_tame.
Qed.

(** A parsed value other than [null], none of whose objects owns a
    [toString] property, is answered with the success response. *)
Lemma get_tame (e : Ask.Env) (fileId : string) (resp : Ask.ModelResponse)
    (parsed : JsVal) (tr : list Event) :
  startsWith fileId "file-" = true →
  Ask.responses_create e fileId = Return resp →
  Ask.JSON_parse e (default "" (Ask.output_text resp)) = Some parsed →
  isNullish parsed = false →
  tame parsed = true →
  ∃ data,
    Ask.get e fileId tr
    = Some (Return (Ask.mkResponse 200 (Ask.DataBody true fileId data)),
            tr ++ [Call "responses.create" [fileId]]).
Proof.
  intros Hid Hresp Hparse Hnn Htame.
  rewrite (get_answered e fileId resp Hid Hresp), Hparse.
  rewrite normalize_non_null by done.
  destruct (documentTextOf_tame (getOwn parsed "documentText")) as [ds ->];
    [by apply tame_getOwn|].
  destruct (tablesOf_tame (Ask.realm e) (getOwn parsed "tables")) as [ts ->];
    [by apply tame_getOwn|].
  by eexists.
Qed.

(** C9: when the text of the model is rejected by [JSON.parse], the handler
    answers 500 with [ok: false], the fixed message and, as preview, the
    first 1200 code units of that text; the trace holds the single request
    to the completion service and nothing after it. *)
Theorem ask_invalid_json (e : Ask.Env) (fileId : string) (resp : Ask.ModelResponse)
    (tr : list Event) :
  startsWith fileId "file-" = true →
  Ask.responses_create e fileId = Return resp →
  Ask.JSON_parse e (default "" (Ask.output_text resp)) = None →
  Ask.get e fileId tr
  = Some (Return (Ask.mkResponse 500 (Ask.PreviewBody false
                    "Model did not return valid JSON."
                    (slice0 (default "" (Ask.output_text resp)) 1200))),
          tr ++ [Call "responses.create" [fileId]]) ∧
  chars (slice0 (default "" (Ask.output_text resp)) 1200)
  = take 1200 (chars (default "" (Ask.output_text resp))) ∧
  (strlen (slice0 (default "" (Ask.output_text resp)) 1200) ≤ 1200)%nat.
Proof.
  intros Hid Hresp Hparse. split; [|split].
  - by rewrite (get_answered e fileId resp Hid Hresp), Hparse.
  - by rewrite chars_slice0.
  - unfold strlen. rewrite chars_slice0 by done. rewrite length_take. lia.
Qed.

Lemma ask_invalid_json_witness :
  Ask.get (Sample.askEnv (Some "Here is the data you asked for: {") []) "file-abc123" []
  = Some (Return (Ask.mkResponse 500 (Ask.PreviewBody false
                    "Model did not return valid JSON."
                    (slice0 "Here is the data you asked for: {" 1200))),
          [Call "responses.create" ["file-abc123"]]).
Proof.
  apply (ask_invalid_json
           (Sample.askEnv (Some "Here is the data you asked for: {") [])
           "file-abc123" (Ask.mkModelResponse (Some "Here is the data you asked for: {")) []);
    reflexivity.
Defined.

(** C10 on the text [null]: it is valid JSON, yet reading
    [parsed.documentText] throws and the handler answers 500 with
    [ok: false] from its [catch] block. *)
Theorem ask_null_output_fails (e : Ask.Env) (fileId : string)
    (resp : Ask.ModelResponse) (tr : list Event) :
  startsWith fileId "file-" = true →
  Ask.responses_create e fileId = Return resp →
  Ask.JSON_parse e (default "" (Ask.output_text resp)) = Some JNull →
  Ask.get e fileId tr
  = Some (Return (Ask.mkResponse 500 (Ask.ErrorBody false
                    (JStr "Cannot read properties of null (reading 'documentText')"))),
          tr ++ [Call "responses.create" [fileId]]).
Proof.
  intros Hid Hresp Hparse.
  by rewrite (get_answered e fileId resp Hid Hresp), Hparse.
Qed.

Lemma ask_null_output_fails_witness :
  Ask.get (Sample.askEnv (Some "null") [("null", JNull)]) "file-abc123" []
  = Some (Return (Ask.mkResponse 500 (Ask.ErrorBody false
                    (JStr "Cannot read properties of null (reading 'documentText')"))),
          [Call "responses.create" ["file-abc123"]]).
Proof.
  apply (ask_null_output_fails (Sample.askEnv (Some "null") [("null", JNull)])
           "file-abc123" (Ask.mkModelResponse (Some "null")) []);
    reflexivity.
Defined.



(* ===================================================================== *)
(** * Row normalization                                                   *)
(* ===================================================================== *)






(* ===================================================================== *)
(** * Decimal numerals and trimming                                       *)
(* ===================================================================== *)

Import ExportExcel.

Lemma pretty_N_char_plain (x : N) : plain (pretty_N_char x).
Proof. unfold pretty_N_char. repeat case_match; by split. Qed.

Lemma pretty_N_go_plain (x : N) : ∀ s,
  Forall plain (chars s) → Forall plain (chars (pretty_N_go x s)).
Proof.
  induction (N.lt_wf_0 x) as [x _ IH]; intros s Hs.
  assert (x = 0 ∨ 0 < x)%N as [->|Hx] by lia; [by rewrite pretty_N_go_0|].
  rewrite pretty_N_go_step by done. apply IH; [by apply N.div_lt|].
  constructor; [apply pretty_N_char_plain|done].
Qed.

Lemma pretty_N_go_length_ge (x : N) : ∀ s,
  (length (chars s) ≤ length (chars (pretty_N_go x s)))%nat.
Proof.
  induction (N.lt_wf_0 x) as [x _ IH]; intros s.
  assert (x = 0 ∨ 0 < x)%N as [->|Hx] by lia; [by rewrite pretty_N_go_0|].
  rewrite pretty_N_go_step by done.
  etrans; [|apply IH; by apply N.div_lt].
  change (chars (String (pretty_N_char (x `mod` 10)%N) s))
    with (pretty_N_char (x `mod` 10)%N :: chars s).
  cbn [length]. lia.
Qed.

Lemma pretty_N_go_length_le (k : nat) : ∀ x s,
  (x < 10 ^ N.of_nat k)%N →
  (length (chars (pretty_N_go x s)) ≤ k + length (chars s))%nat.
Proof.
  induction k as [|k IH]; intros x s Hx.
  - assert (x = 0%N) as -> by (cbn in Hx; lia). by rewrite pretty_N_go_0.
  - assert (x = 0 ∨ 0 < x)%N as [->|Hpos] by lia.
    { rewrite pretty_N_go_0. lia. }
    rewrite pretty_N_go_step by done.
    etrans; [apply IH|].
    2:{ change (chars (String (pretty_N_char (x `mod` 10)%N) s))
          with (pretty_N_char (x `mod` 10)%N :: chars s).
        cbn [length]. lia. }
    apply N.Div0.div_lt_upper_bound.
    by rewrite Nat2N.inj_succ, N.pow_succ_r' in Hx.
Qed.

Lemma pretty_N_plain (n : N) : Forall plain (chars (pretty n)).
Proof.
  unfold pretty, pretty_N. case_decide.
  - repeat constructor.
  - apply pretty_N_go_plain. constructor.
Qed.

Lemma pretty_N_nonempty (n : N) : chars (pretty n) ≠ [].
Proof.
  unfold pretty, pretty_N. case_decide; [done|].
  assert (0 < n)%N as Hn by lia. rewrite pretty_N_go_step by done.
  pose proof (pretty_N_go_length_ge (n `div` 10)%N
                (String (pretty_N_char (n `mod` 10)%N) "")) as Hlen.
  intros Hnil. rewrite Hnil in Hlen. cbn in Hlen. lia.
Qed.

Lemma pretty_N_length (k : nat) (n : N) :
  (0 < k)%nat → (n < 10 ^ N.of_nat k)%N → (length (chars (pretty n)) ≤ k)%nat.
Proof.
  intros Hk Hn. unfold pretty, pretty_N. case_decide.
  - cbn. lia.
  - pose proof (pretty_N_go_length_le k n "" Hn) as Hlen.
    change (length (chars "")) with 0%nat in Hlen. lia.
Qed.

Lemma trimStart_plain_head (c : ascii) (l : list ascii) :
  isWhiteSpace c = false → trimStart_chars (c :: l) = c :: l.
Proof. intros Hc. cbn. by rewrite Hc. Qed.

Lemma trimStart_app_plain (A d : list ascii) :
  d ≠ [] → Forall plain d →
  trimStart_chars (A ++ d) = trimStart_chars A ++ d.
Proof.
  intros Hne Hd. induction A as [|a A IH].
  - destruct Hd as [|c d [Hc _] _]; [done|]. by apply trimStart_plain_head.
  - cbn. by destruct (isWhiteSpace a).
Qed.

Lemma trimStart_length (l : list ascii) :
  (length (trimStart_chars l) ≤ length l)%nat.
Proof. induction l as [|c l IH]; cbn; [lia|]. destruct (isWhiteSpace c); cbn; lia. Qed.

Lemma trimStart_suffix (l : list ascii) : trimStart_chars l `suffix_of` l.
Proof.
  induction l as [|c l IH]; [done|]. cbn. destruct (isWhiteSpace c); [|done].
  by apply suffix_cons_r.
Qed.

(** Trimming a text that ends with a numeral only strips its front. *)
Lemma trim_chars_app_plain (A d : list ascii) :
  d ≠ [] → Forall plain d →
  trim_chars (A ++ d) = trimStart_chars A ++ d.
Proof.
  intros Hne Hd. unfold trim_chars. rewrite trimStart_app_plain by done.
  rewrite reverse_app.
  destruct (reverse d) as [|c rd] eqn:Hrd.
  { apply (f_equal reverse) in Hrd. rewrite reverse_involutive in Hrd. done. }
  assert (plain c) as [Hc _].
  { apply (Forall_reverse plain) in Hd. rewrite Hrd in Hd. by inversion Hd. }
  cbn [app]. rewrite trimStart_plain_head by done.
  change (c :: rd ++ reverse (trimStart_chars A))
    with ((c :: rd) ++ reverse (trimStart_chars A)).
  by rewrite <-Hrd, reverse_app, !reverse_involutive.
Qed.

Lemma trim_chars_length (l : list ascii) : (length (trim_chars l) ≤ length l)%nat.
Proof.
  unfold trim_chars. rewrite length_reverse.
  etrans; [apply trimStart_length|]. rewrite length_reverse. apply trimStart_length.
Qed.

Lemma trimStart_snoc_space (X : list ascii) :
  endsWithSpace (trimStart_chars (X ++ [" "%char])).
Proof.
  induction X as [|a X IH]; [by left|].
  cbn. destruct (isWhiteSpace a); [done|].
  right. by exists (a :: X), " "%char.
Qed.

Lemma plain_prefix_unique (a b p q : list ascii) :
  Forall plain a → Forall plain b →
  (p = [] ∨ ∃ c p', p = c :: p' ∧ isWhiteSpace c = true) →
  (q = [] ∨ ∃ c q', q = c :: q' ∧ isWhiteSpace c = true) →
  a ++ p = b ++ q → a = b.
Proof.
  intros Ha. revert b. induction Ha as [|x a [Hx _] Ha IH]; intros b Hb Hp Hq Heq.
  - destruct Hb as [|y b [Hy _] Hb]; [done|]. cbn in Heq.
    destruct Hp as [->|(c & p' & -> & Hc)]; [done|]. congruence.
  - destruct Hb as [|y b [Hy _] Hb]; cbn in Heq.
    + destruct Hq as [->|(c & q' & -> & Hc)]; [done|]. congruence.
    + injection Heq as -> Heq. f_equal. by apply IH.
Qed.

Lemma numeral_suffix_unique (Y1 Y2 d1 d2 : list ascii) :
  endsWithSpace Y1 → endsWithSpace Y2 → Forall plain d1 → Forall plain d2 →
  Y1 ++ d1 = Y2 ++ d2 → d1 = d2.
Proof.
  intros HY1 HY2 Hd1 Hd2 Heq.
  apply (f_equal reverse) in Heq. rewrite !reverse_app in Heq.
  apply (inj reverse).
  apply (plain_prefix_unique _ _ (reverse Y1) (reverse Y2));
    [by apply Forall_reverse|by apply Forall_reverse| | |done].
  - destruct HY1 as [->|(l & c & -> & Hc)]; [by left|right].
    exists c, (reverse l). by rewrite reverse_snoc.
  - destruct HY2 as [->|(l & c & -> & Hc)]; [by left|right].
    exists c, (reverse l). by rewrite reverse_snoc.
Qed.

(* ===================================================================== *)
(** * Sheet names                                                         *)
(* ===================================================================== *)

Lemma slice0_chars_length (l : list ascii) (e : Z) :
  0 ≤ e → (length (slice0_chars l e) ≤ Z.to_nat e)%nat.
Proof.
  intros He. unfold slice0_chars. rewrite decide_False by lia.
  rewrite length_take. lia.
Qed.

Lemma slice0_chars_Forall (P : ascii → Prop) (l : list ascii) (e : Z) :
  Forall P l → Forall P (slice0_chars l e).
Proof. intros Hl. unfold slice0_chars. case_decide; by apply Forall_take. Qed.

Lemma trimStart_Forall (P : ascii → Prop) (l : list ascii) :
  Forall P l → Forall P (trimStart_chars l).
Proof.
  intros Hl. destruct (trimStart_suffix l) as [k Hk].
  rewrite Hk in Hl. by apply Forall_app in Hl as [_ ?].
Qed.

Lemma trim_chars_Forall (P : ascii → Prop) (l : list ascii) :
  Forall P l → Forall P (trim_chars l).
Proof.
  intros Hl. unfold trim_chars.
  by apply Forall_reverse, trimStart_Forall, Forall_reverse, trimStart_Forall.
Qed.

Lemma strlen_suffix (i : N) : strlen (" " +:+ pretty i) = S (strlen (pretty i)).
Proof. unfold strlen. by rewrite chars_app. Qed.

(** The candidate for counter [i]: the truncated base, a space and the
    numeral, with white space stripped at the front only. *)
Lemma suffixed_chars (base : string) (i : N) :
  chars (suffixed base i)
  = trimStart_chars
      (slice0_chars (chars base) (31 - Z.of_nat (S (strlen (pretty i)))) ++ [" "%char])
    ++ chars (pretty i).
Proof.
  unfold suffixed, trim, slice0. rewrite strlen_suffix.
  rewrite chars_str, chars_app, chars_str, chars_app.
  change (chars " ") with [" "%char]. rewrite app_assoc.
  apply trim_chars_app_plain; [apply pretty_N_nonempty|apply pretty_N_plain].
Qed.

(** Two counters never give the same candidate. *)
Lemma suffixed_inj (base : string) (i j : N) :
  suffixed base i = suffixed base j → i = j.
Proof.
  intros Heq. apply (f_equal chars) in Heq. rewrite !suffixed_chars in Heq.
  apply numeral_suffix_unique in Heq;
    [|apply trimStart_snoc_space|apply trimStart_snoc_space
     |apply pretty_N_plain|apply pretty_N_plain].
  apply (inj pretty). by apply chars_inj.
Qed.

(** Re-truncation: with a numeral of at most 30 digits the candidate fits. *)
Lemma suffixed_length (base : string) (i : N) :
  (strlen (pretty i) ≤ 30)%nat → (strlen (suffixed base i) ≤ 31)%nat.
Proof.
  intros Hi. unfold strlen at 1. rewrite suffixed_chars, length_app.
  fold (strlen (pretty i)).
  pose proof (trimStart_length
    (slice0_chars (chars base) (31 - Z.of_nat (S (strlen (pretty i)))) ++ [" "%char])) as H1.
  rewrite length_app in H1. cbn [length] in H1.
  pose proof (slice0_chars_length (chars base)
                (31 - Z.of_nat (S (strlen (pretty i)))) ltac:(lia)) as H2.
  lia.
Qed.

Lemma suffixed_allowed (base : string) (i : N) :
  Forall (λ c, isDisallowed c = false) (chars base) →
  Forall (λ c, isDisallowed c = false) (chars (suffixed base i)).
Proof.
  intros Hbase. rewrite suffixed_chars. apply Forall_app. split.
  - apply trimStart_Forall, Forall_app. split; [by apply slice0_chars_Forall|].
    by repeat constructor.
  - eapply Forall_impl; [apply pretty_N_plain|]. by intros c [_ ?].
Qed.

Section loop.
Context (base : string) (used : gset string).

Lemma loop_fresh (fuel : nat) : ∀ name i n,
  uniqueSheetName_loop fuel base used name i = Some n → n ∉ used.
Proof.
  induction fuel as [|fuel IH]; intros name i n; cbn; case_decide; try done.
  - by intros [= <-].
  - apply IH.
  - by intros [= <-].
Qed.

(** What the loop answers: the name it was entered with when that is
    free, and otherwise the candidate of the first free counter. *)
Lemma loop_shape (fuel : nat) : ∀ name i n,
  uniqueSheetName_loop fuel base used name i = Some n →
  ((name ∉ used) ∧ n = name) ∨
  (name ∈ used ∧
   ∃ k, (i ≤ k < i + N.of_nat fuel)%N ∧ n = suffixed base k ∧
        ∀ j, (i ≤ j < k)%N → suffixed base j ∈ used).
Proof.
  induction fuel as [|fuel IH]; intros name i n; cbn [uniqueSheetName_loop];
    case_decide as Hin; try done.
  - intros [= <-]. by left.
  - intros Hloop. right. split; [done|].
    destruct (IH _ _ _ Hloop) as [[Hfree ->]|(Hused & k & Hk & -> & Hbelow)].
    + exists i. split; [lia|]. split; [done|]. intros j Hj. lia.
    + exists k. split; [lia|]. split; [done|]. intros j Hj.
      destruct (decide (j = i)) as [->|Hne]; [done|]. apply Hbelow. lia.
  - intros [= <-]. by left.
Qed.

Lemma loop_total (fuel : nat) : ∀ name i,
  (name ∉ used) ∨ (∃ k, (i ≤ k < i + N.of_nat fuel)%N ∧ (suffixed base k ∉ used)) →
  is_Some (uniqueSheetName_loop fuel base used name i).
Proof.
  induction fuel as [|fuel IH]; intros name i Hfree; cbn [uniqueSheetName_loop];
    case_decide as Hin; try done.
  - destruct Hfree as [?|(k & Hk & _)]; [done|lia].
  - apply IH. destruct Hfree as [?|(k & Hk & Hfree)]; [done|].
    destruct (decide (k = i)) as [->|Hne]; [by left|].
    right. exists k. split; [lia|done].
Qed.

(** Among [size used + 1] candidates, one is not in [used]. *)
Lemma free_counter :
  ∃ k, (2 ≤ k < 2 + N.of_nat (S (size used)))%N ∧ (suffixed base k ∉ used).
Proof.
  set (cand := λ m : nat, suffixed base (2 + N.of_nat m)%N).
  assert (Inj (=) (=) cand) as Hinj.
  { intros m1 m2 Heq. apply suffixed_inj in Heq. lia. }
  destruct (decide (Forall (λ n, n ∈ used) (cand <$> seq 0 (S (size used)))))
    as [Hall|Hnot].
  - assert (list_to_set (cand <$> seq 0 (S (size used))) ⊆ used) as Hsub.
    { intros n Hn. apply elem_of_list_to_set in Hn.
      by apply (proj1 (Forall_forall _ _) Hall). }
    apply subseteq_size in Hsub.
    rewrite size_list_to_set in Hsub by (apply NoDup_fmap_2; [done|apply NoDup_seq]).
    rewrite length_fmap, length_seq in Hsub. lia.
  - apply not_Forall_Exists in Hnot; [|apply _].
    apply Exists_exists in Hnot as (n & Hn & Hfree).
    apply list_elem_of_fmap in Hn as (m & -> & Hm).
    apply elem_of_seq in Hm.
    exists (2 + N.of_nat m)%N. split; [lia|done].
Qed.

(** The loop ends within [size used + 1] rounds. *)
Lemma uniqueSheetName_total (fuel : nat) :
  (size used < fuel)%nat →
  ∃ n, uniqueSheetName fuel base used = Some (n, {[n]} ∪ used) ∧
       (n ∉ used) ∧
       (((base ∉ used) ∧ n = base) ∨
        (base ∈ used ∧
         ∃ k, (2 ≤ k ≤ 2 + N.of_nat (size used))%N ∧ n = suffixed base k ∧
              ∀ j, (2 ≤ j < k)%N → suffixed base j ∈ used)).
Proof.
  intros Hfuel. unfold uniqueSheetName.
  destruct (loop_total fuel base 2%N) as [n Hn].
  { right. destruct free_counter as (k & Hk & Hfree). exists k. split; [lia|done]. }
  exists n. rewrite Hn. cbn. split; [done|]. split; [by eapply loop_fresh|].
  destruct (loop_shape _ _ _ _ Hn) as [?|(Hused & k & Hk & -> & Hbelow)]; [by left|].
  right. split; [done|]. exists k. split; [|done].
  destruct free_counter as (k' & Hk' & Hfree).
  destruct (decide (k ≤ k')%N); [lia|].
  exfalso. apply Hfree, Hbelow. lia.
Qed.

(** Whatever the fuel, an answer of the loop is free, and is the base or
    the candidate of the least free counter, which is at most
    [size used + 2]. *)
Lemma uniqueSheetName_Some (fuel : nat) (n : string) (used' : gset string) :
  uniqueSheetName fuel base used = Some (n, used') →
  used' = {[n]} ∪ used ∧
  (n ∉ used) ∧
  (((base ∉ used) ∧ n = base) ∨
   (base ∈ used ∧
    ∃ k, (2 ≤ k ≤ 2 + N.of_nat (size used))%N ∧ n = suffixed base k ∧
         ∀ j, (2 ≤ j < k)%N → suffixed base j ∈ used)).
Proof.
  unfold uniqueSheetName.
  destruct (uniqueSheetName_loop fuel base used base 2) as [n'|] eqn:Hn; [|done].
  cbn. intros [= -> <-]. split; [done|]. split; [by eapply loop_fresh|].
  destruct (loop_shape _ _ _ _ Hn) as [?|(Hused & k & Hk & -> & Hbelow)]; [by left|].
  right. split; [done|]. exists k. split; [|done].
  destruct free_counter as (k' & Hk' & Hfree).
  destruct (decide (k ≤ k')%N); [lia|].
  exfalso. apply Hfree, Hbelow. lia.
Qed.

End loop.

(** ** Base names *)

Lemma collapse_collapsed (l : list ascii) : ∀ b, collapsed b (collapse_chars b l).
Proof.
  induction l as [|c l IH]; intros b; [done|]. cbn [collapse_chars].
  destruct (isWhiteSpace c) eqn:Hc.
  - destruct b; [apply IH|]. cbn. split; [done|]. split; [done|]. apply IH.
  - cbn. rewrite Hc. apply IH.
Qed.

Lemma collapsed_weaken (l : list ascii) : collapsed true l → collapsed false l.
Proof. destruct l as [|c l]; [done|]. cbn. destruct (isWhiteSpace c); [by intros [? _]|done]. Qed.

Lemma collapsed_take (l : list ascii) : ∀ b n, collapsed b l → collapsed b (take n l).
Proof.
  induction l as [|c l IH]; intros b [|n]; try done. cbn.
  destruct (isWhiteSpace c).
  - intros (? & ? & ?). repeat split; [done..|]. by apply IH.
  - apply IH.
Qed.

Lemma collapsed_trimStart (l : list ascii) : ∀ b,
  collapsed b l → collapsed false (trimStart_chars l).
Proof.
  induction l as [|c l IH]; intros b; [done|]. cbn.
  destruct (isWhiteSpace c) eqn:Hc.
  - intros (_ & _ & Hl). by eapply IH.
  - cbn. by rewrite Hc.
Qed.

Lemma trimEnd_take (m : list ascii) :
  ∃ k, reverse (trimStart_chars (reverse m)) = take k m.
Proof.
  destruct (trimStart_suffix (reverse m)) as [p Hp].
  apply (f_equal reverse) in Hp. rewrite reverse_involutive, reverse_app in Hp.
  exists (length (reverse (trimStart_chars (reverse m)))).
  rewrite Hp at 3. by rewrite take_app_length.
Qed.

Lemma collapsed_trim (l : list ascii) (b : bool) :
  collapsed b l → collapsed false (trim_chars l).
Proof.
  intros Hl. unfold trim_chars.
  destruct (trimEnd_take (trimStart_chars l)) as [k ->].
  by eapply collapsed_take, collapsed_trimStart.
Qed.

Lemma collapsed_slice0 (l : list ascii) (b : bool) (e : Z) :
  collapsed b l → collapsed b (slice0_chars l e).
Proof. intros Hl. unfold slice0_chars. case_decide; by apply collapsed_take. Qed.

Lemma collapse_Forall (P : ascii → Prop) (l : list ascii) : ∀ b,
  P " "%char → Forall P l → Forall P (collapse_chars b l).
Proof.
  induction l as [|c l IH]; intros b Hsp Hl; [done|].
  inversion Hl as [|? ? Hc Hl']; subst. cbn [collapse_chars].
  destruct (isWhiteSpace c); [destruct b|]; try constructor; try done; by apply IH.
Qed.

Lemma replaceDisallowed_allowed (c : ascii) : isDisallowed (replaceDisallowed c) = false.
Proof. unfold replaceDisallowed. by destruct (isDisallowed c) eqn:Hc. Qed.

Lemma cleaned_chars_ok (l : list ascii) :
  (length (cleaned_chars l) ≤ 31)%nat ∧
  Forall (λ c, isDisallowed c = false) (cleaned_chars l) ∧
  collapsed false (cleaned_chars l).
Proof.
  unfold cleaned_chars. split; [|split].
  - etrans; [apply slice0_chars_length; lia|]. lia.
  - apply slice0_chars_Forall, trim_chars_Forall, collapse_Forall; [done|].
    apply Forall_fmap, Forall_true. intros c. apply replaceDisallowed_allowed.
  - eapply collapsed_slice0, collapsed_trim, collapse_collapsed.
Qed.

(** The derived name is the fallback, or a non-empty text of at most 31
    code units without disallowed characters and with collapsed white
    space. *)
Lemma safeSheetName_cases (name fallback : string) :
  safeSheetName name fallback = fallback ∨
  ((0 < strlen (safeSheetName name fallback))%nat ∧
   sheetNameOk (safeSheetName name fallback) ∧
   collapsed false (chars (safeSheetName name fallback))).
Proof.
  unfold safeSheetName.
  set (src := if decide (name = "") then fallback else name).
  destruct (cleaned_chars_ok (chars src)) as (Hlen & Hall & Hcol).
  case_decide as Hempty; [by left|right].
  unfold sheetNameOk. rewrite strlen_str in *. rewrite chars_str.
  repeat split; [lia|done..].
Qed.

Lemma positionalName_ok (idx : nat) :
  (N.of_nat idx + 1 < 10 ^ 25)%N → sheetNameOk (positionalName idx).
Proof.
  intros Hidx. unfold sheetNameOk, positionalName, strlen. rewrite chars_app.
  pose proof (pretty_N_length 25 (N.of_nat idx + 1) ltac:(lia) Hidx) as Hlen.
  split.
  - rewrite length_app. change (length (chars "Table ")) with 6%nat. lia.
  - apply Forall_app. split; [by repeat constructor|].
    eapply Forall_impl; [apply pretty_N_plain|]. by intros c [_ ?].
Qed.

Lemma baseNameOf_ok (t : JsVal) (idx : nat) :
  (N.of_nat idx + 1 < 10 ^ 25)%N → sheetNameOk (baseNameOf t idx).
Proof.
  intros Hidx. unfold baseNameOf.
  destruct (safeSheetName_cases
              match getOpt t "tableName" with JStr s => s | _ => positionalName idx end
              (positionalName idx)) as [->|(_ & Hok & _)]; [|done].
  by apply positionalName_ok.
Qed.

Lemma suffixed_ok (base : string) (k : N) :
  sheetNameOk base → (k < 10 ^ 30)%N → sheetNameOk (suffixed base k).
Proof.
  intros [_ Hall] Hk. split; [|by apply suffixed_allowed].
  apply suffixed_length. apply (pretty_N_length 30); [lia|done].
Qed.

Lemma nameChoice_ok (base : string) (earlier : list string) (n : string) :
  sheetNameOk base → (N.of_nat (length earlier) < 2 ^ 32)%N →
  nameChoice base earlier n → sheetNameOk n.
Proof.
  intros Hbase Hlen [[_ ->]|(_ & k & Hk & -> & _ & _)]; [done|].
  apply suffixed_ok; [done|].
  assert (2 ^ 32 + 3 < 10 ^ 30)%N by done. lia.
Qed.

(** The choice is a function of the base and of the earlier names. *)
Lemma nameChoice_functional (base : string) (earlier : list string) (n1 n2 : string) :
  nameChoice base earlier n1 → nameChoice base earlier n2 → n1 = n2.
Proof.
  intros [[Hfree1 ->]|(Hin1 & k1 & Hk1 & -> & Hnew1 & Hbelow1)]
         [[Hfree2 ->]|(Hin2 & k2 & Hk2 & -> & Hnew2 & Hbelow2)]; try done.
  destruct (N.lt_trichotomy k1 k2) as [Hlt|[->|Hlt]]; [|done|].
  - destruct Hnew1. apply Hbelow2. lia.
  - destruct Hnew2. apply Hbelow1. lia.
Qed.

(** Two lists of names chosen in turn for the same bases are equal. *)
Lemma nameChoice_deterministic (bases : list string) : ∀ l1 l2,
  length l1 = length bases → length l2 = length bases →
  (∀ j b, bases !! j = Some b → ∃ n, l1 !! j = Some n ∧ nameChoice b (take j l1) n) →
  (∀ j b, bases !! j = Some b → ∃ n, l2 !! j = Some n ∧ nameChoice b (take j l2) n) →
  l1 = l2.
Proof.
  induction bases as [|b bases IH] using rev_ind; intros l1 l2 Hlen1 Hlen2 H1 H2.
  - destruct l1, l2; done.
  - rewrite length_app in Hlen1, Hlen2. cbn [length] in Hlen1, Hlen2.
    destruct (H1 (length bases) b) as (n1 & Hn1 & Hc1);
      [by rewrite lookup_app_r, Nat.sub_diag by lia|].
    destruct (H2 (length bases) b) as (n2 & Hn2 & Hc2);
      [by rewrite lookup_app_r, Nat.sub_diag by lia|].
    assert (take (length bases) l1 = take (length bases) l2) as Htake.
    { apply IH.
      - rewrite length_take. lia.
      - rewrite length_take. lia.
      - intros j b' Hj. pose proof (lookup_lt_Some _ _ _ Hj) as Hlt.
        destruct (H1 j b') as (n & Hn & Hc); [by rewrite lookup_app_l|].
        exists n. rewrite lookup_take_lt by done. split; [done|].
        by rewrite take_take, Nat.min_l by lia.
      - intros j b' Hj. pose proof (lookup_lt_Some _ _ _ Hj) as Hlt.
        destruct (H2 j b') as (n & Hn & Hc); [by rewrite lookup_app_l|].
        exists n. rewrite lookup_take_lt by done. split; [done|].
        by rewrite take_take, Nat.min_l by lia. }
    rewrite Htake in Hc1. pose proof (nameChoice_functional _ _ _ _ Hc1 Hc2) as <-.
    rewrite <-(take_drop (length bases) l1), <-(take_drop (length bases) l2), Htake.
    f_equal.
    rewrite (drop_S _ _ _ Hn1), (drop_S _ _ _ Hn2).
    by rewrite !drop_ge by lia.
Qed.

(** ** The loop over the tables *)

Section tables.
Context (env : Env).

Lemma ws_name_worksheetOf (t : JsVal) (fc : list string) (n : string) (ws : Worksheet) :
  worksheetOf env t fc n = Return ws → ws_name ws = n.
Proof.
  unfold worksheetOf. case_decide.
  - destruct (fillSheet env _); [done|]. by intros [= <-].
  - destruct (normalizeRows _ _ _) as [normalized|]; [|done].
    destruct (fillSheet env _); [done|]. by intros [= <-].
Qed.

(** What the callback has done when it returns. *)
Lemma addTable_Return (fuel : nat) (t : JsVal) (idx : nat) (wb wb' : Workbook)
    (used used' : gset string) :
  used = list_to_set (sheetNames wb) → NoDup (sheetNames wb) →
  addTable env fuel t idx wb used = Some (Return (wb', used')) →
  ∃ fc ws,
    wb' = wb ++ [ws] ∧
    used' = list_to_set (sheetNames wb') ∧
    NoDup (sheetNames wb') ∧
    nameChoice (baseNameOf t idx) (sheetNames wb) (ws_name ws) ∧
    finalColumnsOf t = Return fc ∧
    addWorksheet env (sheetNames wb) (ws_name ws) = None ∧
    worksheetOf env t fc (ws_name ws) = Return ws.
Proof.
  intros Hused Hnodup. unfold addTable.
  destruct (uniqueSheetName fuel (baseNameOf t idx) used) as [[n used1]|] eqn:Hn; [|done].
  cbn. apply uniqueSheetName_Some in Hn as (-> & Hfresh & Hshape).
  destruct (finalColumnsOf t) as [fc|]; [|done].
  fold (sheetNames wb).
  destruct (addWorksheet env (sheetNames wb) n) eqn:Hadd; [done|].
  destruct (worksheetOf env t fc n) as [ws|] eqn:Hws; [|done].
  intros [= <- <-]. pose proof (ws_name_worksheetOf _ _ _ _ Hws) as Hname.
  assert (∀ x, x ∈ used ↔ x ∈ sheetNames wb) as Hmem.
  { intros x. rewrite Hused. apply elem_of_list_to_set. }
  assert (size used = length (sheetNames wb)) as Hsize.
  { by rewrite Hused, size_list_to_set. }
  exists fc, ws. rewrite Hname. split; [done|].
  assert (sheetNames (wb ++ [ws]) = sheetNames wb ++ [n]) as Hsnoc.
  { unfold sheetNames. by rewrite fmap_app, (fmap_cons ws_name), Hname. }
  rewrite Hsnoc. split; [|split; [|split; [|done]]].
  - apply set_eq. intros x.
    rewrite elem_of_union, elem_of_singleton, elem_of_list_to_set, elem_of_app,
      list_elem_of_singleton, Hmem. tauto.
  - apply NoDup_app. split; [done|]. split; [|apply NoDup_singleton].
    intros x Hx ->%list_elem_of_singleton. by apply Hfresh, Hmem.
  - destruct Hshape as [[Hfree ->]|(Hin & k & Hk & -> & Hbelow)].
    + left. by rewrite <-Hmem.
    + right. rewrite <-Hmem. split; [done|]. exists k. rewrite <-Hsize.
      split; [done|]. split; [done|]. split; [by rewrite <-Hmem|].
      intros j Hj. rewrite <-Hmem. by apply Hbelow.
Qed.



(** When the loop returns, every table has got one sheet, in order; its
    name was chosen against the names of the sheets made before it and
    accepted by the library. *)
Lemma forEachTable_Return (fuel : nat) (tables : list JsVal) :
  ∀ idx wb used wbF usedF,
  used = list_to_set (sheetNames wb) → NoDup (sheetNames wb) →
  length wb = idx →
  forEachTable env fuel tables idx wb used = Some (Return (wbF, usedF)) →
  ∃ wb',
    wbF = wb ++ wb' ∧
    length wb' = length tables ∧
    NoDup (sheetNames wbF) ∧
    ∀ j t, tables !! j = Some t →
      ∃ fc ws,
        wb' !! j = Some ws ∧
        nameChoice (baseNameOf t (idx + j)) (sheetNames (wb ++ take j wb')) (ws_name ws) ∧
        finalColumnsOf t = Return fc ∧
        addWorksheet env (sheetNames (wb ++ take j wb')) (ws_name ws) = None ∧
        worksheetOf env t fc (ws_name ws) = Return ws.
Proof.
  induction tables as [|t tables IH]; intros idx wb used wbF usedF Hused Hnodup Hlen;
    cbn [forEachTable].
  - intros [= <- <-]. exists []. rewrite app_nil_r. by repeat split.
  - destruct (addTable env fuel t idx wb used) as [[[wb1 used1]|]|] eqn:Hadd; [|done..].
    intros Hrest.
    destruct (addTable_Return _ _ _ _ _ _ _ Hused Hnodup Hadd)
      as (fc & ws & -> & Hused1 & Hnodup1 & Hchoice & Hfc & Haccept & Hws).
    destruct (IH (S idx) _ _ _ _ Hused1 Hnodup1 ltac:(rewrite length_app; cbn; lia) Hrest)
      as (wb' & -> & Hlen' & HnodupF & Heach).
    exists (ws :: wb'). rewrite <-app_assoc. cbn [app].
    split; [done|]. split; [by cbn; rewrite Hlen'|].
    split; [by rewrite <-app_assoc in HnodupF|].
    intros [|j] t' Ht'.
    + injection Ht' as <-. exists fc, ws. rewrite Nat.add_0_r, app_nil_r. done.
    + destruct (Heach j t' Ht') as (fc' & ws' & Hj & Hchoice' & Hfc' & Haccept' & Hws').
      exists fc', ws'. replace (idx + S j)%nat with (S idx + j)%nat by lia.
      cbn [take]. by rewrite <-app_assoc in Hchoice', Haccept'.
Qed.



End tables.
(** ** The export route *)

Section route.
Context (env : Env).

(** A response with the file is made once every table has got its sheet
    and the buffer was written. *)
Lemma post_200 (fuel : nat) (body : JsVal) (ct cd : string) (wb : Workbook) :
  post env fuel body = Some (mkResponse 200 (FileBody ct cd wb)) →
  ct = xlsxType ∧ cd = attachment ∧ tablesOf body ≠ [] ∧
  writeBuffer env wb = None ∧
  ∃ used, forEachTable env fuel (tablesOf body) 0 [] ∅ = Some (Return (wb, used)).
Proof.
  unfold post. case_decide as Hlen; [done|].
  destruct (forEachTable env fuel (tablesOf body) 0 [] ∅) as [[[wb' used]|]|]; [|done..].
  destruct (writeBuffer env wb') eqn:Hwrite; [done|].
  intros [= <- <- <-]. split; [done|]. split; [done|].
  split; [by destruct (tablesOf body)|]. split; [done|]. by exists used.
Qed.

(** The workbook of an export: one sheet per table, in order, under
    distinct names that the library accepted. *)
Lemma post_workbook (fuel : nat) (body : JsVal) (ct cd : string) (wb : Workbook) :
  post env fuel body = Some (mkResponse 200 (FileBody ct cd wb)) →
  length wb = length (tablesOf body) ∧
  NoDup (sheetNames wb) ∧
  ∀ j t, tablesOf body !! j = Some t →
    ∃ fc ws,
      wb !! j = Some ws ∧
      nameChoice (baseNameOf t j) (take j (sheetNames wb)) (ws_name ws) ∧
      finalColumnsOf t = Return fc ∧
      addWorksheet env (take j (sheetNames wb)) (ws_name ws) = None ∧
      worksheetOf env t fc (ws_name ws) = Return ws.
Proof.
  intros (_ & _ & _ & _ & used & Hloop)%post_200.
  destruct (forEachTable_Return env fuel (tablesOf body) 0 [] ∅ wb used)
    as (wb' & -> & Hlen & Hnodup & Heach); [done|constructor|done|done|].
  cbn [app] in *. split; [done|]. split; [done|].
  intros j t Hj. destruct (Heach j t Hj) as (fc & ws & Hws & Hchoice & Hfc & Hacc & Hsheet).
  exists fc, ws. unfold sheetNames in *. rewrite <-fmap_take. by cbn in *.
Qed.



(** The names of the sheets of an export, one by one. *)
Lemma post_names (fuel : nat) (body : JsVal) (ct cd : string) (wb : Workbook) :
  post env fuel body = Some (mkResponse 200 (FileBody ct cd wb)) →
  length (sheetNames wb) = length (tablesOf body) ∧
  ∀ j t, tablesOf body !! j = Some t →
    ∃ n, sheetNames wb !! j = Some n ∧
         nameChoice (baseNameOf t j) (take j (sheetNames wb)) n.
Proof.
  intros (Hlen & _ & Heach)%post_workbook. unfold sheetNames at 1.
  rewrite length_fmap. split; [done|].
  intros j t Hj. destruct (Heach j t Hj) as (fc & ws & Hws & Hchoice & _).
  exists (ws_name ws). split; [|done]. unfold sheetNames.
  by rewrite list_lookup_fmap, Hws.
Qed.

End route.

(** The names of the sheets depend on the tables alone. *)
Lemma post_names_deterministic (env1 env2 : Env) (fuel1 fuel2 : nat) (body : JsVal)
    (ct1 cd1 ct2 cd2 : string) (wb1 wb2 : Workbook) :
  post env1 fuel1 body = Some (mkResponse 200 (FileBody ct1 cd1 wb1)) →
  post env2 fuel2 body = Some (mkResponse 200 (FileBody ct2 cd2 wb2)) →
  sheetNames wb1 = sheetNames wb2.
Proof.
  intros [Hlen1 H1]%post_names [Hlen2 H2]%post_names.
  apply (nameChoice_deterministic (imap (λ j t, baseNameOf t j) (tablesOf body))).
  - by rewrite length_imap.
  - by rewrite length_imap.
  - intros j b Hj. rewrite list_lookup_imap in Hj.
    destruct (tablesOf body !! j) as [t|] eqn:Ht; [|done]. injection Hj as <-.
    by apply H1.
  - intros j b Hj. rewrite list_lookup_imap in Hj.
    destruct (tablesOf body !! j) as [t|] eqn:Ht; [|done]. injection Hj as <-.
    by apply H2.
Qed.

(** ** Exact base names *)

Lemma trimStart_plain (l : list ascii) : Forall plain l → trimStart_chars l = l.
Proof. intros [|c l' [Hc _] _]; [done|]. cbn. by rewrite Hc. Qed.

Lemma trim_plain (l : list ascii) : Forall plain l → trim_chars l = l.
Proof.
  intros Hl. unfold trim_chars. rewrite (trimStart_plain l) by done.
  rewrite trimStart_plain by by apply Forall_reverse. apply reverse_involutive.
Qed.

Lemma collapse_plain (l : list ascii) : Forall plain l → collapse_chars false l = l.
Proof.
  induction 1 as [|c l [Hc _] _ IH]; [done|]. cbn [collapse_chars].
  by rewrite Hc, IH.
Qed.

Lemma replaceDisallowed_plain (l : list ascii) :
  Forall plain l → replaceDisallowed <$> l = l.
Proof.
  induction 1 as [|c l [_ Hc] _ IH]; [done|]. rewrite fmap_cons, IH.
  unfold replaceDisallowed. by rewrite Hc.
Qed.

(** A name without white space and disallowed characters is cut after 31
    code units and otherwise kept. *)
Lemma safeSheetName_plain (name fallback : string) :
  name ≠ "" → Forall plain (chars name) →
  chars (safeSheetName name fallback) = take 31 (chars name).
Proof.
  intros Hne Hplain. unfold safeSheetName. rewrite (decide_False (P := name = "")) by done.
  assert (cleaned_chars (chars name) = take 31 (chars name)) as ->.
  { unfold cleaned_chars. rewrite replaceDisallowed_plain, collapse_plain, trim_plain by done.
    unfold slice0_chars. by rewrite decide_False by lia. }
  rewrite strlen_str. rewrite decide_False; [by rewrite chars_str|].
  destruct (chars name) as [|c l] eqn:Hname; [|done].
  destruct Hne. apply chars_inj. by rewrite Hname.
Qed.

(** C7: how the export names its sheets.  The name derived from a table
    name is the fallback or a non-empty text of at most 31 code units,
    free of the disallowed characters and with collapsed white space; a
    name that needs no cleaning is cut after exactly 31 code units.  The
    candidate for a counter is the base cut to [31] less the length of the
    suffix, then a space and the numeral of the counter, white space being
    stripped at the ends; the search for a free candidate always ends.  In
    every export that is answered with the file, each table has a sheet
    whose name is its base name when no earlier sheet has it, and otherwise
    the candidate of the least counter 2, 3, ... that no earlier sheet
    has; the names are pairwise distinct and, in an export of fewer than
    2^32 tables (the longest array there is), have at most 31 code units
    and no disallowed character.  The names are a function of the tables
    alone: any other run on the same body, with whatever library, gives
    the same names.  The tables named [A:B], [A:B] and the empty name give
    the sheets [A B], [A B 2] and [Table 3]. *)
Theorem sheet_naming (env : Env) (fuel : nat) (body : JsVal) (wb : Workbook) :
  post env fuel body = Some (mkResponse 200 (FileBody xlsxType attachment wb)) →
  (∀ name fallback,
     safeSheetName name fallback = fallback ∨
     ((0 < strlen (safeSheetName name fallback))%nat ∧
      sheetNameOk (safeSheetName name fallback) ∧
      collapsed false (chars (safeSheetName name fallback)))) ∧
  (∀ name fallback,
     name ≠ "" → Forall plain (chars name) →
     chars (safeSheetName name fallback) = take 31 (chars name)) ∧
  (∀ base k,
     chars (suffixed base k)
     = trimStart_chars
         (slice0_chars (chars base) (31 - Z.of_nat (S (strlen (pretty k)))) ++ [" "%char])
       ++ chars (pretty k)) ∧
  (∀ base used fuel',
     (size used < fuel')%nat →
     ∃ n, uniqueSheetName fuel' base used = Some (n, {[n]} ∪ used) ∧ (n ∉ used)) ∧
  length wb = length (tablesOf body) ∧
  NoDup (sheetNames wb) ∧
  ((N.of_nat (length (tablesOf body)) < 2 ^ 32)%N → Forall sheetNameOk (sheetNames wb)) ∧
  (∀ j t, tablesOf body !! j = Some t →
     ∃ n, sheetNames wb !! j = Some n ∧
          nameChoice (baseNameOf t j) (take j (sheetNames wb)) n) ∧
  (∀ env' fuel' wb',
     post env' fuel' body = Some (mkResponse 200 (FileBody xlsxType attachment wb')) →
     sheetNames wb' = sheetNames wb) ∧
  (∀ env' fuel' wb',
     post env' fuel'
          (JObj [("tables", JArr [Sample.tbl "A:B"; Sample.tbl "A:B"; Sample.tbl ""])])
     = Some (mkResponse 200 (FileBody xlsxType attachment wb')) →
     sheetNames wb' = ["A B"; "A B 2"; "Table 3"]) ∧
  (∃ wb',
     post Sample.excel 4
          (JObj [("tables", JArr [Sample.tbl "A:B"; Sample.tbl "A:B"; Sample.tbl ""])])
     = Some (mkResponse 200 (FileBody xlsxType attachment wb'))).
Proof.
  intros Hpost.
  destruct (post_workbook _ _ _ _ _ _ Hpost) as (Hlen & Hnodup & _).
  destruct (post_names _ _ _ _ _ _ Hpost) as (Hlen' & Hnames).
  split; [apply safeSheetName_cases|]. split; [apply safeSheetName_plain|].
  split; [apply suffixed_chars|]. split.
  { intros base used fuel' Hfuel.
    destruct (uniqueSheetName_total base used fuel' Hfuel) as (n & Hn & Hfresh & _).
    by exists n. }
  split; [done|]. split; [done|]. split; [|split; [done|split; [|split]]].
  - intros Hbound. apply Forall_lookup. intros j n Hn.
    assert (j < length (tablesOf body))%nat as Hj.
    { rewrite <-Hlen'. by eapply lookup_lt_Some. }
    destruct (lookup_lt_is_Some_2 _ _ Hj) as [t Ht].
    destruct (Hnames j t Ht) as (n' & Hn' & Hchoice).
    assert (n' = n) as -> by congruence.
    eapply nameChoice_ok; [apply baseNameOf_ok| |done].
    + etrans; [|by instantiate (1 := (2 ^ 32)%N)]. lia.
    + rewrite length_take. lia.
  - intros env' fuel' wb' Hpost'. by eapply post_names_deterministic.
  - intros env' fuel' wb' Hpost'.
    change ["A B"; "A B 2"; "Table 3"]
      with (sheetNames [placeholderSheet "A B"; placeholderSheet "A B 2";
                        placeholderSheet "Table 3"]).
    eapply (post_names_deterministic _ Sample.quietExcel _ 4); [done|].
    vm_compute. reflexivity.
  - eexists. vm_compute. reflexivity.
Qed.

Lemma sheet_naming_witness :
  sheetNames [placeholderSheet "Bill of materials for the main ";
              placeholderSheet "Bill of materials for the mai 2"]
  = ["Bill of materials for the main "; "Bill of materials for the mai 2"] ∧
  NoDup ["Bill of materials for the main "; "Bill of materials for the mai 2"] ∧
  Forall sheetNameOk ["Bill of materials for the main "; "Bill of materials for the mai 2"].
Proof.
  destruct (sheet_naming Sample.excel 3
              (JObj [("tables",
                      JArr [Sample.tbl "Bill of materials for the main assembly line";
                            Sample.tbl "Bill of materials for the main assembly line"])])
              [placeholderSheet "Bill of materials for the main ";
               placeholderSheet "Bill of materials for the mai 2"])
    as (_ & _ & _ & _ & _ & Hnodup & Hok & _).
  - vm_compute. reflexivity.
  - split; [reflexivity|]. split; [exact Hnodup|]. apply Hok. vm_compute. reflexivity.
Defined.



(* ===================================================================== *)
(** * Further properties of the upload route                              *)
(* ===================================================================== *)

Section ensures.
Context {A B : Type}.

Lemma ensures_ret (a : A) (Q : A → Prop) : Q a → ensures (ret a) Q.
Proof. intros Ha tr c tr' [= <- <-]. split; [done|]. by intros ? [= <-]. Qed.

Lemma ensures_eval (c : Completion A) (Q : A → Prop) :
  (∀ a, c = Return a → Q a) → ensures (eval c) Q.
Proof. intros Hc tr c' tr' [= <- <-]. by split. Qed.

Lemma ensures_await (ev : Event) (c : Completion A) (Q : A → Prop) :
  (∀ a, c = Return a → Q a) → ensures (await ev c) Q.
Proof. intros Hc tr c' tr' [= <- <-]. split; [by apply prefix_app_r|done]. Qed.

Lemma ensures_bind (m : M A) (k : A → M B) (Q1 : A → Prop) (Q2 : B → Prop) :
  ensures m Q1 → (∀ a, Q1 a → ensures (k a) Q2) → ensures (bind m k) Q2.
Proof.
  intros Hm Hk tr c tr' Hrun. unfold bind in Hrun.
  destruct (m tr) as [[[a|e] tr1]|] eqn:Hmtr; [| |done].
  - destruct (Hm _ _ _ Hmtr) as [Hpre HQ].
    destruct (Hk a (HQ a eq_refl) _ _ _ Hrun) as [Hpre' HQ'].
    split; [by etrans|done].
  - injection Hrun as <- <-. destruct (Hm _ _ _ Hmtr) as [Hpre _].
    split; [done|]. by intros.
Qed.

Lemma ensures_weaken (m : M A) (Q1 Q2 : A → Prop) :
  ensures m Q1 → (∀ a, Q1 a → Q2 a) → ensures m Q2.
Proof.
  intros Hm Himp tr c tr' Hrun. destruct (Hm _ _ _ Hrun) as [Hpre HQ].
  split; [done|]. intros a Ha. by apply Himp, HQ.
Qed.

End ensures.

Lemma ensures_sleep (ms : Z) : ensures (sleep ms) (λ _, True).
Proof. intros tr c tr' [= <- <-]. split; [by apply prefix_app_r|done]. Qed.

Section upload_more.
Import Upload.
Context (r : Remote).

Lemma ensures_submit (f : MulterFile) : ensures (submit r f) (λ _, True).
Proof.
  unfold submit.
  repeat (first
    [ eapply (ensures_bind _ _ (λ _, True));
        [first [by apply ensures_await|by apply ensures_eval]|intros ? _]
    | by apply ensures_ret ]).
Qed.

Lemma ensures_pollBatch (fuel : nat) : ∀ k fileId vectorStoreId batchId,
  ensures (pollBatch fuel r k fileId vectorStoreId batchId)
          (λ exit, ∀ resp, exit = Some resp → uploadReply resp).
Proof.
  induction fuel as [|fuel IH]; intros k fileId vectorStoreId batchId; [done|].
  cbn [pollBatch].
  eapply (ensures_bind _ _ (λ _, True)); [by apply ensures_await|intros b _].
  eapply (ensures_bind _ _ (λ _, True)); [by apply ensures_eval|intros s _].
  destruct (isString s "completed"); [by apply ensures_ret|].
  destruct (isString s "failed").
  - apply ensures_ret. intros resp [= <-]. right. split; [by right|done].
  - eapply (ensures_bind _ _ (λ _, True)); [apply ensures_sleep|intros _ _]. apply IH.
Qed.

Lemma ensures_checkEntry (fileId vectorStoreId batchId : string) :
  ensures (checkEntry r fileId vectorStoreId batchId) uploadReply.
Proof.
  unfold checkEntry.
  eapply (ensures_bind _ _ (λ _, True)); [by apply ensures_await|intros data _].
  eapply (ensures_bind _ _ (λ _, True)); [by apply ensures_eval|intros [entry|] _].
  - destruct (isString (getOwn entry "status") "failed").
    + apply ensures_ret. right. split; [by right|done].
    + eapply (ensures_bind _ _ (λ _, True)); [by apply ensures_eval|intros l _].
      apply ensures_ret. by left.
  - eapply (ensures_bind _ _ (λ _, True)); [by apply ensures_eval|intros l _].
    apply ensures_ret. right. split; [by right|done].
Qed.

Lemma ensures_tryBlock (fuel : nat) (f : MulterFile) :
  ensures (tryBlock fuel r f) uploadReply.
Proof.
  unfold tryBlock.
  eapply (ensures_bind _ _ (λ _, True)); [apply ensures_submit|].
  intros [[fileId vectorStoreId] batchId] _.
  eapply ensures_bind; [apply ensures_pollBatch|].
  intros [resp|] Hexit; [by apply ensures_ret, Hexit|apply ensures_checkEntry].
Qed.

(** Entries that can all be read are all listed. *)
Lemma idStatus_readable (data : list JsVal) :
  Forall (λ x, isNullish x = false) data →
  idStatus data
  = Return ((λ x, JObj [("id", getOwn x "id"); ("status", getOwn x "status")]) <$> data).
Proof.
  induction 1 as [|x data Hx _ IH]; [done|]. cbn [idStatus fmap list_fmap].
  unfold getC, get. by rewrite Hx, IH.
Qed.

Lemma pollBatch_throws (fileId vectorStoreId batchId : string) (e : JsVal) (n : nat) :
  ∀ fuel k tr,
  (∀ j, (j < n)%nat →
        nonTerminal (fileBatches_retrieve r batchId vectorStoreId (k + j))) →
  fileBatches_retrieve r batchId vectorStoreId (k + n) = Throw e →
  (n < fuel)%nat →
  pollBatch fuel r k fileId vectorStoreId batchId tr
  = Some (Throw e, tr ++ pollTrace batchId vectorStoreId n).
Proof.
  induction n as [|n IH]; intros fuel k tr Hpend Hthrow Hfuel;
    (destruct fuel as [|fuel]; [lia|]).
  - rewrite Nat.add_0_r in Hthrow. cbn [pollBatch].
    unfold bind, retrieveBatch, await. by rewrite Hthrow.
  - rewrite pollBatch_pending.
    2:{ specialize (Hpend 0%nat). rewrite Nat.add_0_r in Hpend. apply Hpend. lia. }
    rewrite (IH fuel (S k)); [by rewrite <-app_assoc| | |lia].
    + intros j Hj. replace (S k + j)%nat with (k + S j)%nat by lia. apply Hpend. lia.
    + by replace (S k + n)%nat with (k + S n)%nat by lia.
Qed.

End upload_more.

(** X1: whenever the upload handler completes, it has sent a response and
    not thrown; it has only added to the trace; and the response is 200
    with [ok: true], or 400 or 500 with [ok: false]. *)
Theorem upload_always_responds (fuel : nat) (r : Upload.Remote)
    (file : option Upload.MulterFile) (tr tr' : list Event)
    (c : Completion Upload.Response) :
  Upload.post fuel r file tr = Some (c, tr') →
  ∃ resp, c = Return resp ∧ tr `prefix_of` tr' ∧ uploadReply resp.
Proof.
  destruct file as [f|]; cbn [Upload.post].
  - unfold tryCatch.
    destruct (Upload.tryBlock fuel r f tr) as [[[resp|e] tr1]|] eqn:Hrun; [| |done].
    + intros [= <- <-]. destruct (ensures_tryBlock r fuel f _ _ _ Hrun) as [Hpre HQ].
      exists resp. split; [done|]. split; [done|]. by apply HQ.
    + intros [= <- <-]. destruct (ensures_tryBlock r fuel f _ _ _ Hrun) as [Hpre _].
      exists (Upload.onError e). split; [done|]. split; [done|].
      right. split; [by right|done].
  - intros [= <- <-]. eexists. split; [done|]. split; [done|].
    right. split; [by left|done].
Qed.

Lemma upload_always_responds_witness :
  ∃ resp,
    Return (Upload.onError (Error "Connection error.")) = Return resp ∧
    [] `prefix_of` [Call "files.create" ["drawing.pdf"; "application/pdf"; "user_data"]] ∧
    uploadReply resp.
Proof.
  apply (upload_always_responds 0
           {| Upload.basename := λ p, p;
              Upload.files_create := λ _, Throw (Error "Connection error.");
              Upload.vectorStores_create := λ _, Throw JNull;
              Upload.fileBatches_create := λ _ _, Throw JNull;
              Upload.fileBatches_retrieve := λ _ _ _, Throw JNull;
              Upload.files_list := λ _, Throw JNull |}
           (Some Sample.file) []).
  reflexivity.
Defined.

(** X2: when the indexing job is seen [completed] at retrieval [n], the
    first listed entry with the file's id does not have status [failed]
    (any other status will do) and every listed entry is an object, the
    handler answers
    200 with [ok: true], the three identifiers and the id and status of
    every listed entry; it has made [n + 1] retrievals, slept [n] times in
    between and listed the container once. *)
Theorem upload_success (r : Upload.Remote) (f : Upload.MulterFile)
    (fileId vectorStoreId batchId : string) (tr tr1 : list Event)
    (n fuel : nat) (data : list JsVal) (entry : JsVal) :
  Upload.submit r f tr = Some (Return (fileId, vectorStoreId, batchId), tr1) →
  completesAt r batchId vectorStoreId n →
  Upload.files_list r vectorStoreId = Return data →
  entryOfFile fileId data entry →
  isString (getOwn entry "status") "failed" = false →
  Forall (λ x, isNullish x = false) data →
  (n < fuel)%nat →
  Upload.post fuel r (Some f) tr
  = Some (Return (Upload.mkResponse 200 (JObj [
            ("ok", JBool true);
            ("fileId", JStr fileId);
            ("vectorStoreId", JStr vectorStoreId);
            ("batchId", JStr batchId);
            ("indexedFiles",
             JArr ((λ x, JObj [("id", getOwn x "id"); ("status", getOwn x "status")])
                     <$> data));
            ("note", JStr "File uploaded and indexed successfully") ])),
          tr1 ++ pollTrace batchId vectorStoreId n
              ++ [Call "vectorStores.files.list" [vectorStoreId]]) ∧
  sleeps (pollTrace batchId vectorStoreId n) = n ∧
  calls (pollTrace batchId vectorStoreId n) = S n.
Proof.
  intros Hsub [Hpend Hdone] Hlist Hfind Hstatus Hread Hfuel. split; [|split].
  - rewrite (post_submitted _ _ _ _ _ _ _ _ Hsub).
    rewrite (pollBatch_breaks r fileId vectorStoreId batchId n fuel 0 tr1); [|done..].
    unfold Upload.checkEntry, bind, await, eval.
    rewrite Hlist, (findEntry_entryOfFile _ _ _ Hfind), Hstatus,
      (idStatus_readable _ Hread).
    unfold ret. by rewrite <-app_assoc.
  - clear. unfold sleeps. induction n as [|n IH]; [done|]. cbn in *. by rewrite IH.
  - clear. unfold calls. induction n as [|n IH]; [done|]. cbn in *. by rewrite IH.
Qed.

Lemma upload_success_witness :
  Upload.post 3 (Sample.remote (λ k, if decide (k < 2)%nat then "in_progress" else "completed")
                               [Sample.staleEntry; Sample.readyEntry; Sample.otherEntry])
              (Some Sample.file) []
  = Some (Return (Upload.mkResponse 200 (JObj [
            ("ok", JBool true);
            ("fileId", JStr "file-1");
            ("vectorStoreId", JStr "vs_1");
            ("batchId", JStr "vsfb_1");
            ("indexedFiles",
             JArr ((λ x, JObj [("id", getOwn x "id"); ("status", getOwn x "status")])
                     <$> [Sample.staleEntry; Sample.readyEntry; Sample.otherEntry]));
            ("note", JStr "File uploaded and indexed successfully") ])),
          Sample.submitted ++ pollTrace "vsfb_1" "vs_1" 2
            ++ [Call "vectorStores.files.list" ["vs_1"]]) ∧
  sleeps (pollTrace "vsfb_1" "vs_1" 2) = 2%nat ∧
  calls (pollTrace "vsfb_1" "vs_1" 2) = 3%nat.
Proof.
  apply (upload_success _ _ "file-1" "vs_1" "vsfb_1" [] Sample.submitted 2 3
           [Sample.staleEntry; Sample.readyEntry; Sample.otherEntry] Sample.readyEntry).
  - reflexivity.
  - split.
    + intros [|[|j]] Hj; [| |lia];
        (exists (JStr "in_progress"); repeat split; reflexivity).
    + exists (JStr "completed"). split; reflexivity.
  - reflexivity.
  - exists 1%nat. split; [reflexivity|]. split; [reflexivity|]. split; [reflexivity|].
    intros [|j] x Hj Hx; [|lia]. injection Hx as <-. split; reflexivity.
  - reflexivity.
  - repeat constructor.
  - lia.
Defined.

Lemma trimStart_head (l l' : list ascii) (c : ascii) :
  trimStart_chars l = c :: l' → isWhiteSpace c = false.
Proof.
  induction l as [|a l IH]; [done|]. cbn.
  destruct (isWhiteSpace a) eqn:Ha; [done|]. by intros [= <- _].
Qed.

Lemma trimStart_nil_iff (l : list ascii) :
  trimStart_chars l = [] ↔ Forall (λ c, isWhiteSpace c = true) l.
Proof.
  induction l as [|a l IH]; [done|]. cbn. destruct (isWhiteSpace a) eqn:Ha.
  - rewrite IH. split; [by constructor|by inversion 1].
  - split; [done|]. inversion 1; congruence.
Qed.

Lemma trim_chars_nil_iff (l : list ascii) :
  trim_chars l = [] ↔ Forall (λ c, isWhiteSpace c = true) l.
Proof.
  unfold trim_chars. split.
  - intros Hnil. apply (f_equal reverse) in Hnil.
    rewrite reverse_involutive in Hnil. cbn in Hnil.
    apply trimStart_nil_iff, Forall_reverse in Hnil.
    rewrite reverse_involutive in Hnil.
    destruct (trimStart_chars l) as [|c l'] eqn:Hl; [by apply trimStart_nil_iff|].
    apply trimStart_head in Hl. inversion Hnil; congruence.
  - intros Hall. apply trimStart_nil_iff in Hall. by rewrite Hall.
Qed.

Lemma trim_empty_iff (s : string) :
  trim s = "" ↔ Forall (λ c, isWhiteSpace c = true) (chars s).
Proof.
  rewrite <-trim_chars_nil_iff. unfold trim. split.
  - intros Hs. apply (f_equal chars) in Hs. by rewrite chars_str in Hs.
  - by intros ->.
Qed.

(** X3: [assertString] accepts exactly the strings that hold a code unit
    other than white space, and returns them unchanged; everything else
    (a blank string, a number, [null], [undefined], an object) makes it
    throw an error whose message names the field and prints the value
    (or, when the value has no string form, the exception of printing
    it). *)
Theorem assertString_accepts (name : string) (value : JsVal) :
  (∀ s, Upload.assertString name value = Return s ↔
        value = JStr s ∧ Exists (λ c, isWhiteSpace c = false) (chars s)) ∧
  (∀ e, Upload.assertString name value = Throw e →
        match ToString value with
        | Return text => e = Error (name +:+ " missing/invalid: " +:+ text)
        | Throw err => e = err
        end).
Proof.
  assert (∀ s, trim s ≠ "" ↔ Exists (λ c, isWhiteSpace c = false) (chars s)) as Htrim.
  { intros s. rewrite trim_empty_iff. split.
    - intros Hnot. apply not_Forall_Exists in Hnot; [|apply _].
      eapply Exists_impl; [done|]. intros c Hc. cbn in Hc. by destruct (isWhiteSpace c).
    - intros Hex Hall. apply Exists_exists in Hex as (c & Hc & Hws).
      apply (proj1 (Forall_forall _ _) Hall) in Hc. congruence. }
  unfold Upload.assertString. split.
  - intros s. destruct value as [| | | |s'| | |]; try (split; [done|by intros [? _]]).
    case_decide as Hblank.
    + split; [done|]. intros [[= ->] Hex]. by apply Htrim in Hex.
    + split; [intros [= ->]; split; [done|by apply Htrim]|by intros [[= ->] _]].
  - intros e Hthrow.
    assert (e = Upload.invalidError name value) as ->.
    { destruct value as [| | | |s'| | |]; try by injection Hthrow as <-.
      case_decide; [by injection Hthrow as <-|done]. }
    unfold Upload.invalidError. by destruct (ToString value).
Qed.

(** X4: when the object returned for the uploaded file has no usable id
    (none, not a string, or a blank string), the handler answers 500 with
    the message of [assertString] (or of the exception of printing the
    id, when it has no string form) and stops there: the trace holds the
    single call [files.create], so no vector store and no indexing job is
    created, whatever the fuel. *)
Theorem upload_unusable_file_id (fuel : nat) (r : Upload.Remote)
    (f : Upload.MulterFile) (uploadedFile : JsVal) (tr : list Event) :
  let safeName :=
    Upload.basename r
      (if decide (Upload.originalname f = "") then "upload.pdf"
       else Upload.originalname f) in
  let mime :=
    if decide (Upload.mimetype f = "") then "application/octet-stream"
    else Upload.mimetype f in
  Upload.files_create r (Upload.mkUploadable (Upload.buffer f) safeName mime)
  = Return uploadedFile →
  isNullish uploadedFile = false →
  (∀ s, getOwn uploadedFile "id" = JStr s → trim s = "") →
  Upload.post fuel r (Some f) tr
  = Some (Return (Upload.mkResponse 500 (JObj [
            ("ok", JBool false);
            ("error",
             match ToString (getOwn uploadedFile "id") with
             | Return text => JStr ("uploadedFile.id missing/invalid: " +:+ text)
             | Throw err => nullish (getOpt err "message") (JStr "Upload failed")
             end) ])),
          tr ++ [Call "files.create" [safeName; mime; "user_data"]]).
Proof.
  intros safeName mime Hcreate Hobj Hid.
  unfold Upload.post, tryCatch, Upload.tryBlock, Upload.submit.
  fold safeName. fold mime.
  unfold bind at 1. unfold bind at 1. unfold await at 1. rewrite Hcreate.
  unfold bind at 1. unfold eval at 1, getC, get. rewrite Hobj.
  unfold bind at 1. unfold eval at 1.
  assert (Upload.assertString "uploadedFile.id" (getOwn uploadedFile "id")
          = Throw (Upload.invalidError "uploadedFile.id" (getOwn uploadedFile "id")))
    as ->.
  { unfold Upload.assertString.
    destruct (getOwn uploadedFile "id") as [| | | |s| | |] eqn:Hval; try reflexivity.
    by rewrite decide_True by (by apply Hid). }
  unfold Upload.invalidError, Upload.onError.
  by destruct (ToString (getOwn uploadedFile "id")).
Qed.

Lemma upload_unusable_file_id_witness :
  Upload.post 0
    {| Upload.basename := λ p, p;
       Upload.files_create := λ _, Return (JObj [("id", JNum (NumInt 7))]);
       Upload.vectorStores_create := λ _, Return (JObj [("id", JStr "vs_1")]);
       Upload.fileBatches_create := λ _ _, Return (JObj [("id", JStr "vsfb_1")]);
       Upload.fileBatches_retrieve := λ _ _ _, Return (JObj [("status", JStr "completed")]);
       Upload.files_list := λ _, Return [] |}
    (Some Sample.file) []
  = Some (Return (Upload.mkResponse 500 (JObj [
            ("ok", JBool false);
            ("error", JStr "uploadedFile.id missing/invalid: 7") ])),
          [Call "files.create" ["drawing.pdf"; "application/pdf"; "user_data"]]).
Proof.
  apply (upload_unusable_file_id 0
    {| Upload.basename := λ p, p;
       Upload.files_create := λ _, Return (JObj [("id", JNum (NumInt 7))]);
       Upload.vectorStores_create := λ _, Return (JObj [("id", JStr "vs_1")]);
       Upload.fileBatches_create := λ _ _, Return (JObj [("id", JStr "vsfb_1")]);
       Upload.fileBatches_retrieve := λ _ _ _, Return (JObj [("status", JStr "completed")]);
       Upload.files_list := λ _, Return [] |}
    Sample.file (JObj [("id", JNum (NumInt 7))]) []).
  - reflexivity.
  - reflexivity.
  - intros s Hs. discriminate Hs.
Defined.

(** X5: when a retrieval of the indexing job throws after [n] retrievals
    that showed no terminal status, the handler answers 500 with the
    message of the exception (or [Upload failed] when it has none); the
    trace ends with that retrieval, so the container is never listed. *)
Theorem upload_poll_exception (r : Upload.Remote) (f : Upload.MulterFile)
    (fileId vectorStoreId batchId : string) (tr tr1 : list Event)
    (n fuel : nat) (e : JsVal) :
  Upload.submit r f tr = Some (Return (fileId, vectorStoreId, batchId), tr1) →
  (∀ j, (j < n)%nat →
        nonTerminal (Upload.fileBatches_retrieve r batchId vectorStoreId j)) →
  Upload.fileBatches_retrieve r batchId vectorStoreId n = Throw e →
  (n < fuel)%nat →
  Upload.post fuel r (Some f) tr
  = Some (Return (Upload.mkResponse 500 (JObj [
            ("ok", JBool false);
            ("error", nullish (getOpt e "message") (JStr "Upload failed")) ])),
          tr1 ++ pollTrace batchId vectorStoreId n).
Proof.
  intros Hsub Hpend Hthrow Hfuel.
  rewrite (post_submitted _ _ _ _ _ _ _ _ Hsub).
  by rewrite (pollBatch_throws r fileId vectorStoreId batchId e n fuel 0 tr1).
Qed.

Lemma upload_poll_exception_witness :
  Upload.post 2
    {| Upload.basename := λ p, p;
       Upload.files_create := λ _, Return (JObj [("id", JStr "file-1")]);
       Upload.vectorStores_create := λ _, Return (JObj [("id", JStr "vs_1")]);
       Upload.fileBatches_create := λ _ _, Return (JObj [("id", JStr "vsfb_1")]);
       Upload.fileBatches_retrieve := λ _ _ k,
         if k is O then Return (JObj [("status", JStr "in_progress")])
         else Throw (Error "Request timed out.");
       Upload.files_list := λ _, Return [] |}
    (Some Sample.file) []
  = Some (Return (Upload.mkResponse 500 (JObj [
            ("ok", JBool false);
            ("error", nullish (getOpt (Error "Request timed out.") "message")
                              (JStr "Upload failed")) ])),
          Sample.submitted ++ pollTrace "vsfb_1" "vs_1" 1).
Proof.
  apply (upload_poll_exception _ _ "file-1" "vs_1" "vsfb_1" [] Sample.submitted 1 2).
  - reflexivity.
  - intros [|j] Hj; [|lia]. exists (JStr "in_progress"). repeat split; reflexivity.
  - reflexivity.
  - lia.
Defined.

(** X6: the entry the handler checks is the first listed entry whose id is
    the file's: no entry before it has that id, so a later entry with the
    same id, whatever its status, is not looked at. *)
Theorem findEntry_first_match (fileId : string) (data : list JsVal) (entry : JsVal) :
  Upload.findEntry fileId data = Return (Some entry) →
  ∃ i, data !! i = Some entry ∧
       isString (getOwn entry "id") fileId = true ∧
       ∀ j x, (j < i)%nat → data !! j = Some x →
              isString (getOwn x "id") fileId = false.
Proof.
  induction data as [|x data IH]; [done|]. cbn [Upload.findEntry].
  unfold getC, get. destruct (isNullish x); [done|].
  destruct (isString (getOwn x "id") fileId) eqn:Hx.
  - intros [= <-]. exists 0%nat. split; [done|]. split; [done|]. intros j y Hj. lia.
  - intros Hfind. destruct (IH Hfind) as (i & Hi & Hid & Hbefore).
    exists (S i). split; [done|]. split; [done|].
    intros [|j] y Hj Hy; [by injection Hy as <-|]. apply (Hbefore j); [lia|done].
Qed.

Lemma findEntry_first_match_witness :
  ∃ i, [Sample.otherEntry; Sample.readyEntry; Sample.failedEntry] !! i
       = Some Sample.readyEntry ∧
       isString (getOwn Sample.readyEntry "id") "file-1" = true ∧
       ∀ j x, (j < i)%nat →
              [Sample.otherEntry; Sample.readyEntry; Sample.failedEntry] !! j = Some x →
              isString (getOwn x "id") "file-1" = false.
Proof.
  apply (findEntry_first_match "file-1"
           [Sample.otherEntry; Sample.readyEntry; Sample.failedEntry] Sample.readyEntry).
  reflexivity.
Defined.

(* ===================================================================== *)
(** * Further properties of the vector-store readiness poller             *)
(* ===================================================================== *)

Lemma waitForVectorStoreReady_bounded_witness :
  ∃ n vs s st',
    Z.of_nat n ≤ 3000 / 1500 + 1 ∧
    VectorStore.retrieve (Sample.world (λ _, "failed")) "vs_1"
      (VectorStore.polls Sample.startState + n) = Return vs ∧
    getC vs "status" = Return s ∧
    3000 < VectorStore.now st' - VectorStore.now Sample.startState ∧
    VectorStore.polls st' = S (VectorStore.polls Sample.startState + n) ∧
    (∀ fuel, (n < fuel)%nat →
      VectorStore.waitForVectorStoreReady fuel (Sample.world (λ _, "failed")) "vs_1"
        3000 Sample.startState
      = Some (Throw (VectorStore.timeoutError "vs_1" s), st')) ∧
    VectorStore.timeoutError "vs_1" s
    = match ToString s with
      | Return text =>
          Error ("Timed out waiting for vector store " +:+ "vs_1" +:+
                 " to be ready (last status: " +:+ text +:+ ")")
      | Throw e => e
      end.
Proof.
  apply (waitForVectorStoreReady_bounded (Sample.world (λ _, "failed")) "vs_1" 3000
           Sample.startState).
  - lia.
  - intros k. cbn. lia.
  - intros k. cbn. lia.
  - intros k. exists (JObj [("status", JStr "failed")]), (JStr "failed").
    repeat split; reflexivity.
Defined.

Section vectorStore_more.
Import VectorStore.
Context (w : World) (vectorStoreId : string) (timeoutMs start : Z) (vs : JsVal).

Lemma waitLoop_returns (n : nat) : ∀ fuel st,
  (∀ j, (j < n)%nat → ∃ vs' s,
      retrieve w vectorStoreId (polls st + j) = Return vs' ∧
      getC vs' "status" = Return s ∧ isString s "completed" = false ∧
      now st - start + elapsed w (polls st) j ≤ timeoutMs) →
  retrieve w vectorStoreId (polls st + n) = Return vs →
  (∃ s, getC vs "status" = Return s ∧ isString s "completed" = true) →
  (n < fuel)%nat →
  waitLoop fuel w vectorStoreId timeoutMs start st
  = Some (Return vs,
          {| now := now st + elapsed w (polls st) n;
             polls := S (polls st + n);
             trace := trace st ++ storeTrace vectorStoreId n |}).
Proof.
  induction n as [|n IH]; intros fuel st Hbefore Hvs (s & Hs & Hc) Hfuel;
    (destruct fuel as [|fuel]; [lia|]); cbn [waitLoop].
  - rewrite Nat.add_0_r in *. by rewrite Hvs, Hs, Hc.
  - destruct (Hbefore 0%nat ltac:(lia)) as (vs0 & s0 & Hvs0 & Hs0 & Hc0 & Ht0).
    rewrite Nat.add_0_r in Hvs0. rewrite Hvs0, Hs0, Hc0.
    cbn [elapsed] in Ht0. cbn [now polls trace].
    rewrite decide_False by lia.
    rewrite IH; cbn [now polls trace].
    + do 2 f_equal. f_equal.
      * cbn [elapsed]. lia.
      * lia.
      * cbn [storeTrace]. by rewrite <-!app_assoc.
    + intros j Hj. destruct (Hbefore (S j) ltac:(lia)) as (vs' & s' & ? & ? & ? & Ht).
      exists vs', s'. replace (S (polls st) + j)%nat with (polls st + S j)%nat by lia.
      repeat split; try done. cbn [elapsed] in Ht. lia.
    + by replace (S (polls st) + n)%nat with (polls st + S n)%nat by lia.
    + exists s. done.
    + lia.
Qed.

End vectorStore_more.

(** X8: when the store is first seen [completed] at retrieval [n] and the
    timeout had not passed at the end of any earlier retrieval,
    [waitForVectorStoreReady] returns the retrieved store after [n + 1]
    retrievals and [n] sleeps.  The deadline is not looked at on the
    retrieval that shows [completed]: a store that is ready at the first
    retrieval is returned whatever [timeoutMs] is. *)
Theorem waitForVectorStoreReady_returns (w : VectorStore.World)
    (vectorStoreId : string) (timeoutMs : Z) (st : VectorStore.State)
    (n fuel : nat) (vs : JsVal) :
  (∀ j, (j < n)%nat → ∃ vs' s,
      VectorStore.retrieve w vectorStoreId (VectorStore.polls st + j) = Return vs' ∧
      getC vs' "status" = Return s ∧ isString s "completed" = false ∧
      elapsed w (VectorStore.polls st) j ≤ timeoutMs) →
  VectorStore.retrieve w vectorStoreId (VectorStore.polls st + n) = Return vs →
  (∃ s, getC vs "status" = Return s ∧ isString s "completed" = true) →
  (n < fuel)%nat →
  VectorStore.waitForVectorStoreReady fuel w vectorStoreId timeoutMs st
  = Some (Return vs,
          {| VectorStore.now := VectorStore.now st + elapsed w (VectorStore.polls st) n;
             VectorStore.polls := S (VectorStore.polls st + n);
             VectorStore.trace := VectorStore.trace st ++ storeTrace vectorStoreId n |}) ∧
  sleeps (storeTrace vectorStoreId n) = n ∧
  calls (storeTrace vectorStoreId n) = S n.
Proof.
  intros Hbefore Hvs Hdone Hfuel. split; [|split].
  - unfold VectorStore.waitForVectorStoreReady. apply waitLoop_returns; try done.
    intros j Hj. destruct (Hbefore j Hj) as (vs' & s & ? & ? & ? & ?).
    exists vs', s. repeat split; try done. lia.
  - clear. unfold sleeps. induction n as [|n IH]; [done|]. cbn in *. by rewrite IH.
  - clear. unfold calls. induction n as [|n IH]; [done|]. cbn in *. by rewrite IH.
Qed.

Lemma waitForVectorStoreReady_returns_witness :
  VectorStore.waitForVectorStoreReady 2
    (Sample.world (λ k, if k is O then "in_progress" else "completed")) "vs_1"
    VectorStore.defaultTimeoutMs Sample.startState
  = Some (Return (JObj [("status", JStr "completed")]),
          {| VectorStore.now :=
               VectorStore.now Sample.startState
               + elapsed (Sample.world (λ k, if k is O then "in_progress" else "completed"))
                         (VectorStore.polls Sample.startState) 1;
             VectorStore.polls := S (VectorStore.polls Sample.startState + 1);
             VectorStore.trace :=
               VectorStore.trace Sample.startState ++ storeTrace "vs_1" 1 |}) ∧
  sleeps (storeTrace "vs_1" 1) = 1%nat ∧
  calls (storeTrace "vs_1" 1) = 2%nat.
Proof.
  apply (waitForVectorStoreReady_returns
           (Sample.world (λ k, if k is O then "in_progress" else "completed")) "vs_1"
           VectorStore.defaultTimeoutMs Sample.startState 1 2).
  - intros [|j] Hj; [|lia].
    exists (JObj [("status", JStr "in_progress")]), (JStr "in_progress").
    repeat split; try reflexivity. vm_compute. discriminate.
  - reflexivity.
  - exists (JStr "completed"). split; reflexivity.
  - lia.
Defined.

(* ===================================================================== *)
(** * Further properties of the extraction route                          *)
(* ===================================================================== *)

(** X9: the extraction handler always completes with a response, never
    with an exception.  A file id that does not start with [file-] is
    answered 400 without any request to the completion service; otherwise
    exactly one request is sent.  The response is 200 with [ok: true], or
    400 or 500 with [ok: false]. *)
Theorem ask_always_responds (e : Ask.Env) (fileId : string) (tr : list Event) :
  ∃ resp tr',
    Ask.get e fileId tr = Some (Return resp, tr') ∧
    (if startsWith fileId "file-"
     then tr' = tr ++ [Call "responses.create" [fileId]]
     else tr' = tr ∧ Ask.status resp = 400) ∧
    ((Ask.status resp = 200 ∧ askOk (Ask.body resp) = true) ∨
     ((Ask.status resp = 400 ∨ Ask.status resp = 500) ∧
      askOk (Ask.body resp) = false)).
Proof.
  unfold Ask.get. destruct (startsWith fileId "file-"); cbn [negb].
  2:{ eexists _, _. split; [reflexivity|]. split; [done|]. right. by split; [left|]. }
  unfold tryCatch, bind, await.
  destruct (Ask.responses_create e fileId) as [resp|err].
  2:{ eexists _, _. split; [reflexivity|]. split; [done|]. right. by split; [right|]. }
  destruct (Ask.JSON_parse e (default "" (Ask.output_text resp))) as [parsed|].
  2:{ eexists _, _. split; [reflexivity|]. split; [done|]. right. by split; [right|]. }
  destruct (isNullish parsed) eqn:Hn.
  - rewrite normalize_null by done.
    eexists _, _. split; [reflexivity|]. split; [done|]. right. by split; [right|].
  - rewrite normalize_non_null by done.
    destruct (Ask.documentTextOf (getOwn parsed "documentText")).
    2:{ eexists _, _. split; [reflexivity|]. split; [done|]. right. by split; [right|]. }
    destruct (Ask.tablesOf (Ask.realm e) (getOwn parsed "tables")).
    2:{ eexists _, _. split; [reflexivity|]. split; [done|]. right. by split; [right|]. }
    eexists _, _. split; [reflexivity|]. split; [done|]. by left.
Qed.

(** X10: every output that parses to a value other than [null], none of
    whose objects owns a [toString] property, is answered 200 with
    [ok: true].  [documentText] and [tables] have one entry per element of
    the parsed arrays and are empty when the field is missing or not an
    array; the two id lists of [idAnalysis] are passed on as they are, or
    empty when missing or not arrays; [meta] names the file. *)
Theorem ask_success (e : Ask.Env) (fileId : string) (resp : Ask.ModelResponse)
    (tr : list Event) (parsed : JsVal) :
  startsWith fileId "file-" = true →
  Ask.responses_create e fileId = Return resp →
  Ask.JSON_parse e (default "" (Ask.output_text resp)) = Some parsed →
  isNullish parsed = false →
  tame parsed = true →
  ∃ data,
    Ask.get e fileId tr
    = Some (Return (Ask.mkResponse 200 (Ask.DataBody true fileId data)),
            tr ++ [Call "responses.create" [fileId]]) ∧
    length (Ask.documentText data)
    = length (Ask.arrayOrEmpty (getOwn parsed "documentText")) ∧
    length (Ask.tables data) = length (Ask.arrayOrEmpty (getOwn parsed "tables")) ∧
    Ask.ids_found_in_multiple_tables (Ask.idAnalysis data)
    = Ask.arrayOrEmpty (getOpt (getOpt parsed "idAnalysis") "ids_found_in_multiple_tables") ∧
    Ask.ids_found_in_single_location (Ask.idAnalysis data)
    = Ask.arrayOrEmpty (getOpt (getOpt parsed "idAnalysis") "ids_found_in_single_location") ∧
    Ask.meta data = Ask.mkMeta fileId (Ask.nowISO e).
Proof.
  intros Hid Hresp Hparse Hnn Htame.
  destruct (get_tame e fileId resp parsed tr Hid Hresp Hparse Hnn Htame) as [data Hget].
  exists data. split; [done|].
  destruct (get_data e fileId resp Hid Hresp _ _ _ _ _ _ _ Hparse Hget)
    as (_ & _ & _ & _ & _ & Hdt & Hts & -> & ->).
  unfold Ask.documentTextOf, Ask.tablesOf, Ask.arrayOrEmpty in *.
  split; [|split; [|done]].
  - destruct (arrayItems (getOwn parsed "documentText")) as [items|].
    + by apply normalizeDocumentText_Return in Hdt as [-> _].
    + by injection Hdt as <-.
  - destruct (arrayItems (getOwn parsed "tables")) as [items|].
    + apply mapC_Return in Hts. symmetry. by eapply Forall2_length.
    + by injection Hts as <-.
Qed.

Lemma ask_success_witness :
  ∃ data,
    Ask.get (Sample.askEnv (Some Sample.partsText) [(Sample.partsText, Sample.parts)])
            "file-abc123" []
    = Some (Return (Ask.mkResponse 200 (Ask.DataBody true "file-abc123" data)),
            [] ++ [Call "responses.create" ["file-abc123"]]) ∧
    length (Ask.documentText data)
    = length (Ask.arrayOrEmpty (getOwn Sample.parts "documentText")) ∧
    length (Ask.tables data) = length (Ask.arrayOrEmpty (getOwn Sample.parts "tables")) ∧
    Ask.ids_found_in_multiple_tables (Ask.idAnalysis data)
    = Ask.arrayOrEmpty (getOpt (getOpt Sample.parts "idAnalysis")
                               "ids_found_in_multiple_tables") ∧
    Ask.ids_found_in_single_location (Ask.idAnalysis data)
    = Ask.arrayOrEmpty (getOpt (getOpt Sample.parts "idAnalysis")
                               "ids_found_in_single_location") ∧
    Ask.meta data
    = Ask.mkMeta "file-abc123"
        (Ask.nowISO (Sample.askEnv (Some Sample.partsText)
                                   [(Sample.partsText, Sample.parts)])).
Proof.
  apply (ask_success
           (Sample.askEnv (Some Sample.partsText) [(Sample.partsText, Sample.parts)])
           "file-abc123" (Ask.mkModelResponse (Some Sample.partsText)) [] Sample.parts);
    reflexivity.
Defined.

(** X11: in every response that carries data, each row of each table has
    as keys exactly the columns of its table other than [__proto__]: the
    declared columns coerced to strings, and no key at all when the table
    declares no column array. *)
Theorem ask_rows_match_columns (e : Ask.Env) (fileId fid : string)
    (tr tr' : list Event) (st : Z) (ok : bool) (data : Ask.Data) :
  Ask.get e fileId tr = Some (Return (Ask.mkResponse st (Ask.DataBody ok fid data)), tr') →
  Forall (λ t, Forall (λ row, dom row = rowKeys (Ask.columns t)) (Ask.rows t))
         (Ask.tables data).
Proof.
  unfold Ask.get. destruct (startsWith fileId "file-"); cbn [negb]; [|done].
  unfold tryCatch, bind, await.
  destruct (Ask.responses_create e fileId) as [resp|err]; [|done].
  destruct (Ask.JSON_parse e (default "" (Ask.output_text resp))) as [parsed|]; [|done].
  destruct (isNullish parsed) eqn:Hn.
  { by rewrite normalize_null. }
  rewrite normalize_non_null by done.
  destruct (Ask.documentTextOf (getOwn parsed "documentText")); [|done].
  destruct (Ask.tablesOf (Ask.realm e) (getOwn parsed "tables")) as [ts|] eqn:Hts; [|done].
  intros [= _ _ _ <- _]. cbn [Ask.tables].
  unfold Ask.tablesOf in Hts.
  destruct (arrayItems (getOwn parsed "tables")) as [items|]; [|by injection Hts as <-].
  apply mapC_Return in Hts. apply Forall_forall. intros tb Htb.
  apply list_elem_of_lookup in Htb as [i Hi].
  destruct (Forall2_lookup_r _ _ _ _ _ Hts Hi) as (t & _ & Hnorm).
  apply normalizeTable_Return in Hnorm as (_ & Hrows & _).
  apply mapC_Return in Hrows. apply Forall_forall. intros row Hrow.
  apply list_elem_of_lookup in Hrow as [j Hj].
  destruct (Forall2_lookup_r _ _ _ _ _ Hrows Hj) as (r & _ & Hr).
  rewrite normalizeRow_same in Hr. by eapply normalizeRow_dom.
Qed.

Lemma ask_rows_match_columns_witness :
  Forall (λ t, Forall (λ row, dom row = rowKeys (Ask.columns t)) (Ask.rows t))
         [ Ask.mkTable "Unnamed Table" ["id"; "__proto__"] [ {[ "id" := "5" ]} ] ].
Proof.
  apply (ask_rows_match_columns
           (Sample.askEnv (Some Sample.protoText) [(Sample.protoText, Sample.proto)])
           "file-abc123" "file-abc123" [] [Call "responses.create" ["file-abc123"]]
           200 true
           {| Ask.documentText := [];
              Ask.tables :=
                [ Ask.mkTable "Unnamed Table" ["id"; "__proto__"] [ {[ "id" := "5" ]} ] ];
              Ask.idAnalysis := Ask.mkIdAnalysis [] [];
              Ask.meta := Ask.mkMeta "file-abc123" "2024-01-01T00:00:00.000Z" |}).
  vm_compute. reflexivity.
Defined.

(** X12: in a response that carries data, the entry made for element [i]
    (counted from 0) of the parsed [documentText] array keeps the
    element's [order] when that is a number and gets [i + 1] otherwise (a
    numeral in a string is not a number); its [content] is the [String]
    coercion of the element's content, or the empty string when that is
    missing or [null].  Such a response is made whenever no object of the
    output owns a [toString] property. *)
Theorem ask_document_text_order (e : Ask.Env) (fileId : string)
    (resp : Ask.ModelResponse) (tr : list Event) (parsed : JsVal)
    (items : list JsVal) :
  startsWith fileId "file-" = true →
  Ask.responses_create e fileId = Return resp →
  Ask.JSON_parse e (default "" (Ask.output_text resp)) = Some parsed →
  getOwn parsed "documentText" = JArr items →
  (tame parsed = true →
   ∃ data,
     Ask.get e fileId tr
     = Some (Return (Ask.mkResponse 200 (Ask.DataBody true fileId data)),
             tr ++ [Call "responses.create" [fileId]])) ∧
  (∀ st ok fid data tr',
     Ask.get e fileId tr
     = Some (Return (Ask.mkResponse st (Ask.DataBody ok fid data)), tr') →
     length (Ask.documentText data) = length items ∧
     ∀ i x, items !! i = Some x →
       ∃ d, Ask.documentText data !! i = Some d ∧
            Ask.order d = match getOpt x "order" with
                          | JNum n => n
                          | _ => NumInt (Z.of_nat i + 1)
                          end ∧
            if isNullish (getOpt x "content") then Ask.content d = ""
            else ToString (getOpt x "content") = Return (Ask.content d)).
Proof.
  intros Hid Hresp Hparse Hdt. split.
  - intros Htame. apply (get_tame e fileId resp parsed tr); try done.
    by destruct parsed.
  - intros st ok fid data tr' Hget.
    destruct (get_data e fileId resp Hid Hresp _ _ _ _ _ _ _ Hparse Hget)
      as (_ & _ & _ & _ & _ & Hds & _).
    rewrite Hdt in Hds. unfold Ask.documentTextOf in Hds. cbn [arrayItems] in Hds.
    apply normalizeDocumentText_Return in Hds as [Hlen Hall]. split; [done|].
    intros i x Hi. destruct (Hall i x Hi) as (d & Hd & Hentry).
    exists d. split; [done|]. cbn [Nat.add] in Hentry.
    unfold Ask.normalizeEntry, nullish in Hentry.
    destruct (isNullish (getOpt x "content")).
    + cbn in Hentry. by injection Hentry as <-.
    + destruct (ToString (getOpt x "content")) as [text|]; [|done].
      by injection Hentry as <-.
Qed.

Lemma ask_document_text_order_witness :
  (tame Sample.notes = true →
   ∃ data,
     Ask.get (Sample.askEnv (Some Sample.notesText) [(Sample.notesText, Sample.notes)])
             "file-abc123" []
     = Some (Return (Ask.mkResponse 200 (Ask.DataBody true "file-abc123" data)),
             [] ++ [Call "responses.create" ["file-abc123"]])) ∧
  (∀ st ok fid data tr',
     Ask.get (Sample.askEnv (Some Sample.notesText) [(Sample.notesText, Sample.notes)])
             "file-abc123" []
     = Some (Return (Ask.mkResponse st (Ask.DataBody ok fid data)), tr') →
     length (Ask.documentText data)
     = length [JObj [("content", JStr "NOTES")]; JObj [("order", JNum (NumInt 7))]] ∧
     ∀ i x, [JObj [("content", JStr "NOTES")]; JObj [("order", JNum (NumInt 7))]] !! i
            = Some x →
       ∃ d, Ask.documentText data !! i = Some d ∧
            Ask.order d = match getOpt x "order" with
                          | JNum n => n
                          | _ => NumInt (Z.of_nat i + 1)
                          end ∧
            if isNullish (getOpt x "content") then Ask.content d = ""
            else ToString (getOpt x "content") = Return (Ask.content d)).
Proof.
  apply (ask_document_text_order
           (Sample.askEnv (Some Sample.notesText) [(Sample.notesText, Sample.notes)])
           "file-abc123" (Ask.mkModelResponse (Some Sample.notesText)) []
           Sample.notes);
    reflexivity.
Defined.
(* ===================================================================== *)
(** * Further properties of the export route                              *)
(* ===================================================================== *)

(** X13: the export answers 400 exactly when it finds no table: the
    [tables] field it reads is missing, not an array or empty.  When the
    body has a [data] field that is neither [null] nor [undefined], tables
    are read from there only, whatever the body itself holds. *)
Theorem export_no_tables (env : Env) (fuel : nat) (body : JsVal) :
  (tablesOf body = [] ↔
   post env fuel body = Some (mkResponse 400 (ErrorBody false (JStr noTablesMessage)))) ∧
  (isNullish (getOpt body "data") = false →
   tablesOf body = default [] (arrayItems (getOpt (getOpt body "data") "tables"))).
Proof.
  split.
  - split.
    + intros Hnone. unfold post. by rewrite Hnone.
    + unfold post. case_decide as Hlen; [by destruct (tablesOf body)|].
      destruct (forEachTable env fuel (tablesOf body) 0 [] ∅) as [[[wb used]|]|]; [|done..].
      by destruct (writeBuffer env wb).
  - intros Hdata. unfold tablesOf, nullish. by rewrite Hdata.
Qed.



(** ** Column widths *)

Lemma zip_with_fmap_same {X Y Z' : Type} (f : X → Y → Z') (g : X → Y) (l : list X) :
  zip_with f l (g <$> l) = (λ x, f x (g x)) <$> l.
Proof. induction l as [|x l IH]; [done|]. cbn. by rewrite IH. Qed.

Lemma foldl_zip_with_columns {R W : Type} (step : string → W → R → W)
    (columns : list string) (rs : list R) : ∀ init : string → W,
  foldl (λ ws row, zip_with (λ c w, step c w row) columns ws) (init <$> columns) rs
  = (λ c, foldl (step c) (init c) rs) <$> columns.
Proof.
  induction rs as [|row rs IH]; intros init; [done|]. cbn [foldl].
  rewrite zip_with_fmap_same. apply (IH (λ c, step c (init c) row)).
Qed.

Lemma take_sample {X : Type} (l : list X) : take (Nat.min (length l) 50) l = take 50 l.
Proof.
  destruct (decide (length l ≤ 50)%nat).
  - rewrite Nat.min_l by done. by rewrite take_ge, take_ge.
  - by rewrite Nat.min_r by lia.
Qed.

(** The two nested loops of [setColumnWidths], column by column. *)
Lemma setColumnWidths_columns (realm : Realm) (columns : list string)
    (rows : list (gmap string string)) (maxWidth : Z) :
  setColumnWidths realm columns rows maxWidth
  = (λ c, mkColumn c c (columnWidth realm maxWidth rows c)) <$> columns.
Proof.
  unfold setColumnWidths, columnWidth. rewrite take_sample.
  rewrite (foldl_zip_with_columns
             (λ c w row, widen maxWidth w (cellLength realm row c))).
  by rewrite zip_with_fmap_same.
Qed.

Section widths.
Context (realm : Realm) (maxWidth : Z) (c : string).
Abbreviation step :=
  (λ w (row : gmap string string), widen maxWidth w (cellLength realm row c)).

(** Once a width is [NaN] it stays so. *)
Lemma width_fold_NaN (rs : list (gmap string string)) : foldl step None rs = None.
Proof. induction rs as [|row rs IH]; [done|]. apply IH. Qed.

Lemma width_fold_cell_NaN (rs : list (gmap string string)) : ∀ w i row,
  rs !! i = Some row → cellLength realm row c = None → foldl step w rs = None.
Proof.
  induction rs as [|r rs IH]; intros w [|i] row Hrow Hlen; try done; cbn in *.
  - injection Hrow as ->. rewrite Hlen. destruct w; apply width_fold_NaN.
  - by apply (IH _ i row).
Qed.

(** Rows all of which own the column give a finite width. *)
Lemma width_fold_own (rs : list (gmap string string)) : ∀ w0,
  (∀ i row, rs !! i = Some row → is_Some (row !! c)) →
  ∃ w, foldl step (Some w0) rs = Some w ∧
       (∀ x, x ≤ maxWidth → x ≤ w0 → x ≤ w) ∧
       (∀ i row s, rs !! i = Some row → row !! c = Some s →
                   Z.min maxWidth (Z.of_nat (strlen s) + 2) ≤ w) ∧
       (rs ≠ [] → w ≤ maxWidth).
Proof.
  induction rs as [|r rs IH]; intros w0 Hown.
  - exists w0. split; [done|]. split; [done|]. split; [by intros []|done].
  - destruct (Hown 0%nat r eq_refl) as [s0 Hs0]. cbn [foldl].
    unfold cellLength at 2. rewrite Hs0. cbn [widen].
    destruct (IH (Z.min maxWidth (Z.max w0 (Z.of_nat (strlen s0) + 2))))
      as (w & Hw & Hlower & Hcells & Hupper).
    { intros i row Hrow. by apply (Hown (S i)). }
    exists w. split; [done|]. split; [|split].
    + intros x Hx Hx0. apply Hlower; lia.
    + intros [|i] row s Hrow Hs.
      * injection Hrow as <-. rewrite Hs0 in Hs. injection Hs as <-.
        apply Hlower; lia.
      * by apply (Hcells i row).
    + intros _. destruct rs as [|r' rs'].
      * cbn in Hw. injection Hw as <-. lia.
      * by apply Hupper.
Qed.

End widths.

(** X14: [setColumnWidths] makes one column definition per column, in
    order, with the column as header and as key.  The width of a column
    depends on its own header and on its own cells in the first 50 rows
    only.  When every sampled row owns the column and the cap is at least
    10, the width is a number, at least 10 and at least the cap or the
    length of any of those cells plus 2, and with at least one row at most
    the cap; with no row at all it is the header length plus 2 (or 10),
    which the cap does not bound.  When a sampled row does not own the
    column and what it inherits under that name has no numeric [length]
    (as under the column [__proto__], which no row owns), the width is
    [NaN]. *)
Theorem setColumnWidths_widths (realm : Realm) (columns : list string)
    (rows : list (gmap string string)) (maxWidth : Z) :
  10 ≤ maxWidth →
  setColumnWidths realm columns rows maxWidth
  = (λ c, mkColumn c c (columnWidth realm maxWidth rows c)) <$> columns ∧
  (∀ c more, (50 ≤ length rows)%nat →
     columnWidth realm maxWidth (rows ++ more) c = columnWidth realm maxWidth rows c) ∧
  (∀ c, (∀ i row, (i < 50)%nat → rows !! i = Some row → is_Some (row !! c)) →
     ∃ w, columnWidth realm maxWidth rows c = Some w ∧
          10 ≤ w ∧
          (∀ i row s, (i < 50)%nat → rows !! i = Some row → row !! c = Some s →
                      Z.min maxWidth (Z.of_nat (strlen s) + 2) ≤ w) ∧
          (rows ≠ [] → w ≤ maxWidth)) ∧
  (∀ c, rows = [] →
     columnWidth realm maxWidth rows c = Some (Z.max 10 (Z.of_nat (strlen c) + 2))) ∧
  (∀ c i row, (i < 50)%nat → rows !! i = Some row →
     cellLength realm row c = None →
     columnWidth realm maxWidth rows c = None) ∧
  (∀ c row n, row !! c = None → realm KObject c = Some n →
     cellLength realm row c = nativeLength n).
Proof.
  intros Hmax. split; [apply setColumnWidths_columns|].
  split; [|split; [|split; [|split]]].
  - intros c more Hlen. unfold columnWidth. by rewrite take_app_le.
  - intros c Hown. unfold columnWidth.
    destruct (width_fold_own realm maxWidth c (take 50 rows)
                (Z.max 10 (Z.of_nat (strlen c) + 2)))
      as (w & Hw & Hlower & Hcells & Hupper).
    { intros i row Hrow. apply lookup_take_Some in Hrow as [Hrow Hi]. by apply (Hown i). }
    exists w. split; [done|]. split; [apply Hlower; lia|]. split.
    + intros i row s Hi Hrow Hs. apply (Hcells i row); [|done].
      by rewrite lookup_take_lt.
    + intros Hrows. apply Hupper. by destruct rows.
  - by intros c ->.
  - intros c i row Hi Hrow Hlen. unfold columnWidth.
    apply (width_fold_cell_NaN realm maxWidth c _ _ i row); [|done].
    by rewrite lookup_take_lt.
  - intros c row n Hrow Hn. unfold cellLength. by rewrite Hrow, Hn.
Qed.

Lemma setColumnWidths_widths_witness :
  setColumnWidths Sample.realm ["id"; "note"; "__proto__"] Sample.wideRows 70
  = [ mkColumn "id" "id" (Some 14); mkColumn "note" "note" (Some 13);
      mkColumn "__proto__" "__proto__" None ].
Proof.
  destruct (setColumnWidths_widths Sample.realm ["id"; "note"; "__proto__"]
              Sample.wideRows 70) as [-> _]; [lia|].
  vm_compute. reflexivity.
Defined.

(** ** Derived columns *)

Lemma distinct_spec (l : list string) : ∀ seen : gset string,
  NoDup (distinct seen l) ∧
  (∀ x, x ∈ distinct seen l ↔ x ∈ l ∧ x ∉ seen).
Proof.
  induction l as [|a l IH]; intros seen.
  - cbn. split; [constructor|]. intros x. split; [by inversion 1|].
    by intros [?%elem_of_nil _].
  - cbn [distinct]. case_decide as Ha.
    + destruct (IH seen) as (Hnd & Hmem).
      split; [done|].
      intros x. rewrite Hmem, elem_of_cons. split.
      * intros [Hx Hn]. by split; [right|].
      * intros [[->|?] ?]; [done|by split].
    + destruct (IH ({[a]} ∪ seen)) as (Hnd & Hmem).
      split.
      * constructor; [|done]. rewrite Hmem. intros [_ Hn]. apply Hn.
        apply elem_of_union_l. by apply elem_of_singleton.
      * intros x. rewrite !elem_of_cons, Hmem. split.
        -- intros [->|[Hx Hn]]; [by split; [left|]|].
           split; [by right|]. intros Hs. apply Hn. by apply elem_of_union_r.
        -- intros [[->|Hx] Hn]; [by left|].
           destruct (decide (x = a)) as [->|Hne]; [by left|right].
           split; [done|]. intros [Hs%elem_of_singleton|Hs]%elem_of_union; done.
Qed.

(** Of two results, the earlier one is met in [l] before the later one
    is met at all. *)
Lemma distinct_order (l : list string) : ∀ (seen : gset string) i1 i2 c1 c2,
  (i1 < i2)%nat →
  distinct seen l !! i1 = Some c1 → distinct seen l !! i2 = Some c2 →
  ∃ j1, l !! j1 = Some c1 ∧ c2 ∉ take (S j1) l.
Proof.
  induction l as [|a l IH]; intros seen i1 i2 c1 c2 Hlt H1 H2; [done|].
  cbn [distinct] in H1, H2. case_decide as Ha.
  - destruct (IH seen i1 i2 c1 c2 Hlt H1 H2) as (j1 & Hj1 & Hnot).
    exists (S j1). split; [done|]. cbn [take]. apply not_elem_of_cons. split; [|done].
    intros ->. apply list_elem_of_lookup_2 in H2.
    by apply (distinct_spec l seen) in H2 as [_ ?].
  - assert (c2 ≠ a) as Hne.
    { destruct i2 as [|i2]; [lia|]. cbn in H2. apply list_elem_of_lookup_2 in H2.
      apply (distinct_spec l ({[a]} ∪ seen)) in H2 as [_ Hn].
      intros ->. apply Hn, elem_of_union_l. by apply elem_of_singleton. }
    destruct i1 as [|i1].
    + injection H1 as <-. exists 0%nat. split; [done|]. cbn.
      by intros ->%list_elem_of_singleton.
    + destruct i2 as [|i2]; [lia|]. cbn in H1, H2.
      destruct (IH ({[a]} ∪ seen) i1 i2 c1 c2 ltac:(lia) H1 H2) as (j1 & Hj1 & Hnot).
      exists (S j1). split; [done|]. cbn [take]. by apply not_elem_of_cons.
Qed.

(** X15: the columns of a sheet.  Declared columns, when there is at least
    one, are used in their order, each coerced by [String], and the keys
    of the rows play no part; when a declared column has no string form
    the exception of the coercion is thrown.  With no declared column the
    columns are the keys of the rows: each key that occurs in some row is
    a column exactly once, and the columns come in the order in which the
    keys are first met, so that of two columns the earlier one occurs
    among the keys before the later one occurs at all. *)
Theorem export_final_columns (t : JsVal) :
  let rowKeys :=
    default [] (arrayItems (getOpt t "rows")) ≫= (λ r, keys (nullish r (JObj []))) in
  (∀ cs declared,
     arrayItems (getOpt t "columns") = Some cs →
     Forall2 (λ x text, ToString x = Return text) cs declared →
     declared ≠ [] →
     finalColumnsOf t = Return declared) ∧
  (∀ cs e,
     arrayItems (getOpt t "columns") = Some cs →
     mapC ToString cs = Throw e →
     finalColumnsOf t = Throw e ∧ ∃ x, x ∈ cs ∧ ToString x = Throw e) ∧
  (default [] (arrayItems (getOpt t "columns")) = [] →
   ∃ fc,
     finalColumnsOf t = Return fc ∧
     NoDup fc ∧
     (∀ c, c ∈ fc ↔ c ∈ rowKeys) ∧
     (∀ i1 i2 c1 c2, (i1 < i2)%nat → fc !! i1 = Some c1 → fc !! i2 = Some c2 →
        ∃ j1, rowKeys !! j1 = Some c1 ∧ c2 ∉ take (S j1) rowKeys)).
Proof.
  intros rowKeys. unfold finalColumnsOf. fold rowKeys. split; [|split].
  - intros cs declared -> Hdeclared%mapC_Return Hne. rewrite Hdeclared.
    rewrite decide_True; [done|]. destruct declared; [done|cbn; lia].
  - intros cs e -> Hthrow. rewrite Hthrow. split; [done|]. by apply mapC_Throw.
  - intros Hnone.
    assert (match arrayItems (getOpt t "columns") with
            | Some cs => mapC ToString cs
            | None => Return []
            end = Return []) as ->.
    { destruct (arrayItems (getOpt t "columns")) as [cs|]; [|done].
      cbn in Hnone. by subst cs. }
    cbn. eexists. split; [done|].
    destruct (distinct_spec rowKeys ∅) as (Hnd & Hmem).
    split; [done|]. split.
    + intros c. rewrite Hmem. split; [by intros [? _]|]. intros Hc. split; [done|].
      apply not_elem_of_empty.
    + apply distinct_order.
Qed.

(** ** Names that need no cleaning, names that cannot be cleaned *)

Lemma collapse_collapsed_id (l : list ascii) : ∀ b,
  collapsed b l → collapse_chars b l = l.
Proof.
  induction l as [|c l IH]; intros b; [done|]. cbn.
  destruct (isWhiteSpace c).
  - intros (-> & -> & Hl). by rewrite IH.
  - intros Hl. by rewrite IH.
Qed.

Lemma replaceDisallowed_id (l : list ascii) :
  Forall (λ c, isDisallowed c = false) l → replaceDisallowed <$> l = l.
Proof.
  induction 1 as [|c l Hc _ IH]; [done|]. cbn. unfold replaceDisallowed at 1.
  by rewrite Hc, IH.
Qed.

Lemma safeSheetName_clean (name fallback : string) :
  (0 < strlen name ≤ 31)%nat →
  Forall (λ c, isDisallowed c = false) (chars name) →
  collapsed false (chars name) →
  trim name = name →
  safeSheetName name fallback = name.
Proof.
  intros Hlen Hall Hcol Htrim. unfold safeSheetName.
  destruct (decide (name = "")) as [->|_]; [cbn in Hlen; lia|].
  assert (cleaned_chars (chars name) = chars name) as ->.
  { unfold cleaned_chars. rewrite replaceDisallowed_id by done.
    rewrite collapse_collapsed_id by done.
    apply (f_equal chars) in Htrim. unfold trim in Htrim. rewrite chars_str in Htrim.
    rewrite Htrim. unfold slice0_chars. rewrite decide_False by lia.
    apply take_ge. unfold strlen in Hlen. lia. }
  rewrite str_chars. rewrite decide_False by lia. done.
Qed.

Lemma cleaned_chars_junk (l : list ascii) :
  Forall (λ c, isWhiteSpace c = true ∨ isDisallowed c = true) l →
  cleaned_chars l = [].
Proof.
  intros Hjunk. unfold cleaned_chars.
  assert (trim_chars (collapse_chars false (replaceDisallowed <$> l)) = []) as ->; [|done].
  apply trim_chars_nil_iff, collapse_Forall; [done|].
  apply Forall_fmap. eapply Forall_impl; [done|]. intros c Hc. cbn.
  unfold replaceDisallowed. destruct (isDisallowed c) eqn:Hd; [done|].
  destruct Hc as [?|?]; [done|congruence].
Qed.

(** X16: a table name that needs no cleaning is kept as it is: between 1
    and 31 code units, none of them disallowed, every white space a single
    space, none at either end. *)
Theorem safeSheetName_keeps_clean_name (name fallback : string) :
  (0 < strlen name ≤ 31)%nat →
  Forall (λ c, isDisallowed c = false) (chars name) →
  collapsed false (chars name) →
  trim name = name →
  safeSheetName name fallback = name.
Proof. apply safeSheetName_clean. Qed.

Lemma safeSheetName_keeps_clean_name_witness :
  safeSheetName "BOND BOM" "Table 1" = "BOND BOM".
Proof.
  apply (safeSheetName_keeps_clean_name "BOND BOM" "Table 1").
  - vm_compute. lia.
  - repeat constructor.
  - vm_compute. repeat split.
  - reflexivity.
Defined.

Lemma positionalName_collapsed (idx : nat) :
  collapsed false (chars (positionalName idx)) ∧
  trim (positionalName idx) = positionalName idx.
Proof.
  unfold positionalName.
  pose proof (pretty_N_plain (N.of_nat idx + 1)) as Hplain.
  pose proof (pretty_N_nonempty (N.of_nat idx + 1)) as Hne.
  assert (∀ d b, Forall plain d → collapsed b d) as Hdigits.
  { induction d as [|c d IH]; intros b Hd; [done|].
    inversion Hd as [|? ? [Hc _] Hd']; subst. cbn. rewrite Hc. by apply IH. }
  split.
  - rewrite chars_app. cbn. repeat split. by apply Hdigits.
  - apply chars_inj. unfold trim. rewrite chars_str, chars_app.
    rewrite trim_chars_app_plain by done. done.
Qed.

(** X17: a table whose [tableName] is not a string, is empty, or is made
    of disallowed characters and white space only gets the positional base
    name [Table N], with [N] its position among all the tables of the
    request counted from 1 (for positions below 10^25, where that name fits
    in 31 code units). *)
Theorem baseNameOf_positional (t : JsVal) (idx : nat) :
  (N.of_nat idx + 1 < 10 ^ 25)%N →
  (∀ s, getOpt t "tableName" = JStr s →
        Forall (λ c, isWhiteSpace c = true ∨ isDisallowed c = true) (chars s)) →
  baseNameOf t idx = positionalName idx.
Proof.
  intros Hidx Hjunk.
  assert (safeSheetName (positionalName idx) (positionalName idx) = positionalName idx)
    as Hpos.
  { destruct (positionalName_ok idx Hidx) as [Hlen Hall].
    destruct (positionalName_collapsed idx) as [Hcol Htrim].
    apply safeSheetName_clean; try done. split; [|done].
    unfold positionalName, strlen. rewrite chars_app, length_app. cbn. lia. }
  unfold baseNameOf.
  destruct (getOpt t "tableName") as [| | | |s| | |] eqn:Hname; try done.
  specialize (Hjunk s eq_refl).
  destruct (decide (s = "")) as [->|Hne].
  - rewrite <-Hpos at 2. unfold safeSheetName.
    destruct (decide (positionalName idx = "")) as [Heq|_]; [|done].
    unfold positionalName in Heq. done.
  - unfold safeSheetName. destruct (decide (s = "")) as [|_]; [done|].
    by rewrite cleaned_chars_junk.
Qed.

Lemma baseNameOf_positional_witness :
  baseNameOf (JObj [("tableName", JStr "[*] ?")]) 4 = positionalName 4.
Proof.
  apply (baseNameOf_positional (JObj [("tableName", JStr "[*] ?")]) 4).
  - vm_compute. reflexivity.
  - intros s [= <-].
    repeat (constructor; [first [by left|by right]|]). constructor.
Defined.

(** ** The sheets of an export *)

Lemma setColumnWidths_header_key (realm : Realm) (columns : list string)
    (rows : list (gmap string string)) (maxWidth : Z) :
  header <$> setColumnWidths realm columns rows maxWidth = columns ∧
  key <$> setColumnWidths realm columns rows maxWidth = columns.
Proof.
  rewrite setColumnWidths_columns, <-!list_fmap_compose.
  split; induction columns as [|c columns IH]; cbn; by rewrite ?IH.
Qed.

Lemma worksheetOf_structure (env : Env) (t : JsVal) (fc : list string) (n : string)
    (ws : Worksheet) :
  worksheetOf env t fc n = Return ws →
  autoFilterTo (ws_styling ws) = Some (Z.of_nat (length (ws_columns ws))) ∧
  frozenRows (ws_styling ws) = 1 ∧
  (fc = [] → ws = placeholderSheet n) ∧
  (fc ≠ [] →
   header <$> ws_columns ws = fc ∧
   key <$> ws_columns ws = fc ∧
   normalizeRows (realm env) fc (default [] (arrayItems (getOpt t "rows")))
   = Return (ws_rows ws) ∧
   length (ws_rows ws) = length (default [] (arrayItems (getOpt t "rows"))) ∧
   Forall (λ row, dom row = rowKeys fc) (ws_rows ws) ∧
   ws_textFormat ws = true).
Proof.
  unfold worksheetOf. case_decide as Hempty.
  - destruct (fillSheet env _); [done|]. intros [= <-].
    split; [done|]. split; [done|]. split; [done|]. intros Hne. by destruct fc.
  - destruct (normalizeRows (realm env) fc _) as [normalized|] eqn:Hrows; [|done].
    destruct (fillSheet env _); [done|]. intros [= <-]. cbn.
    destruct (setColumnWidths_header_key (realm env) fc normalized 70) as [Hheader Hkey].
    split; [|split; [done|split]].
    + unfold applySheetStyling. cbn. rewrite decide_True.
      * do 2 f_equal. by rewrite <-Hheader at 1; rewrite length_fmap.
      * destruct fc; [done|]. cbn [length]. lia.
    + intros ->. done.
    + intros _. split; [done|]. split; [done|]. split; [done|].
      apply mapC_Return in Hrows. split; [symmetry; by eapply Forall2_length|].
      split; [|done]. apply Forall_forall. intros row Hrow.
      apply list_elem_of_lookup in Hrow as [j Hj].
      destruct (Forall2_lookup_r _ _ _ _ _ Hrows Hj) as (r & _ & Hr).
      by eapply normalizeRow_dom.
Qed.

(** X18: an export that is answered with the file has a workbook with one
    sheet per table, in the order of the tables.  On every sheet the
    header row is frozen and the auto-filter spans exactly the columns of
    the sheet.  A sheet with columns has them as headers and keys, in
    order, one row per row of the table, in text format, and every row has
    as keys exactly those columns other than [__proto__]. *)
Theorem export_sheet_per_table (env : Env) (fuel : nat) (body : JsVal) (wb : Workbook) :
  post env fuel body = Some (mkResponse 200 (FileBody xlsxType attachment wb)) →
  length wb = length (tablesOf body) ∧
  ∀ j t, tablesOf body !! j = Some t →
    ∃ fc ws,
      finalColumnsOf t = Return fc ∧
      wb !! j = Some ws ∧
      autoFilterTo (ws_styling ws) = Some (Z.of_nat (length (ws_columns ws))) ∧
      frozenRows (ws_styling ws) = 1 ∧
      (fc ≠ [] →
       header <$> ws_columns ws = fc ∧
       key <$> ws_columns ws = fc ∧
       normalizeRows (realm env) fc (default [] (arrayItems (getOpt t "rows")))
       = Return (ws_rows ws) ∧
       length (ws_rows ws) = length (default [] (arrayItems (getOpt t "rows"))) ∧
       Forall (λ row, dom row = rowKeys fc) (ws_rows ws) ∧
       ws_textFormat ws = true).
Proof.
  intros Hpost. destruct (post_workbook _ _ _ _ _ _ Hpost) as (Hlen & _ & Heach).
  split; [done|].
  intros j t Hj. destruct (Heach j t Hj) as (fc & ws & Hws & _ & Hfc & _ & Hsheet).
  exists fc, ws. split; [done|]. split; [done|].
  destruct (worksheetOf_structure _ _ _ _ _ Hsheet) as (Hfilter & Hfrozen & _ & Hcols).
  done.
Qed.

Lemma export_sheet_per_table_witness :
  ∃ wb,
    post Sample.excel 2 Sample.proto
    = Some (mkResponse 200 (FileBody xlsxType attachment wb)) ∧
    ws_rows <$> wb = [[ {[ "id" := "5" ]} ]] ∧
    length wb = length (tablesOf Sample.proto) ∧
    ∀ j t, tablesOf Sample.proto !! j = Some t →
      ∃ fc ws,
        finalColumnsOf t = Return fc ∧
        wb !! j = Some ws ∧
        autoFilterTo (ws_styling ws) = Some (Z.of_nat (length (ws_columns ws))) ∧
        frozenRows (ws_styling ws) = 1 ∧
        (fc ≠ [] →
         header <$> ws_columns ws = fc ∧
         key <$> ws_columns ws = fc ∧
         normalizeRows (realm Sample.excel) fc
                       (default [] (arrayItems (getOpt t "rows")))
         = Return (ws_rows ws) ∧
         length (ws_rows ws) = length (default [] (arrayItems (getOpt t "rows"))) ∧
         Forall (λ row, dom row = rowKeys fc) (ws_rows ws) ∧
         ws_textFormat ws = true).
Proof.
  eexists. split; [vm_compute; reflexivity|]. split; [vm_compute; reflexivity|].
  apply (export_sheet_per_table Sample.excel 2 Sample.proto).
  vm_compute. reflexivity.
Defined.
